(** * Glassmorphism dashboard card: room configuration store and device commands

    A shallow embedding of the card's logic (class [GlassmorphismDashboard])
    and of the parts of the browser platform it calls: [String] methods,
    [JSON.stringify] / [JSON.parse], [localStorage], and the host's
    [hass] object.  The repository holds two copies of the card: the root
    copy (version 1.0.2) and the copy under [dist/] (version 1.0.5).  The
    methods modelled here are the same in both, except [getDefaultRooms]
    and the [icon] property written by [addRoom]; those take the copy as a
    parameter.

    Conventions.
    - A JS string is a Rocq [string]; each character stands for one code
      unit in the range 0..255.  Code units above 255 are outside the model.
    - A JS number that is used as an index is a [Z]; a temperature is a
      binary64 [float].
    - A method of the card is a computation in the monad [Js]: it reads and
      writes a [World] (the card's fields, [localStorage], the console, the
      service calls received by the host) and completes normally or throws.
    - The object [hass.states] is a finite map from identifiers to states;
      under a name that it does not have, the reading of a property finds
      what every object inherits from [Object.prototype].
    - The markup produced by [render] is not modelled; [render] counts the
      re-renderings and throws where reading the active room would throw.
      An error of the building of the markup, as for a bucket that holds
      the name of an inherited property, is outside the model. *)

From Stdlib Require Import ZArith String Ascii List Sorted Lia Floats.
From stdpp Require Import base option list gmap strings.

Set Warnings "-register-all".

Local Open Scope string_scope.
Local Open Scope Z_scope.
Local Open Scope list_scope.

(** ** Characters and the [String] methods the card uses *)

Module Str.

Definition code (c : ascii) : N := N_of_ascii c.

Definition in_range (lo hi : N) (c : ascii) : bool :=
  ((lo <=? code c) && (code c <=? hi))%N.

(** [String.prototype.toLowerCase] on one code unit: A-Z, and the Latin-1
    capitals U+00C0..U+00DE except the multiplication sign U+00D7. *)
Definition lower_char (c : ascii) : ascii :=
  if in_range 65 90 c
     || (in_range 192 222 c && negb (code c =? 215)%N)
  then ascii_of_N (code c + 32)
  else c.

Fixpoint toLowerCase (s : string) : string :=
  match s with
  | EmptyString => EmptyString
  | String c r => String (lower_char c) (toLowerCase r)
  end.

(** The class [\s] of a regular expression, restricted to 0..255:
    TAB, LF, VT, FF, CR, SPACE and NO-BREAK SPACE. *)
Definition is_white (c : ascii) : bool :=
  in_range 9 13 c || (code c =? 32)%N || (code c =? 160)%N.

(** [s.replace(/\s+/g, '_')]: every maximal run of white space becomes
    one underscore.  [in_run] tells that the run's underscore is out. *)
Fixpoint replace_white_runs (in_run : bool) (s : string) : string :=
  match s with
  | EmptyString => EmptyString
  | String c r =>
      if is_white c
      then if in_run then replace_white_runs true r
           else String "_" (replace_white_runs true r)
      else String c (replace_white_runs false r)
  end.

(** The class [[a-z0-9_]]. *)
Definition is_slug_char (c : ascii) : bool :=
  in_range 97 122 c || in_range 48 57 c || (code c =? 95)%N.

(** [s.replace(/[^a-z0-9_]/g, '')]. *)
Fixpoint strip_non_slug (s : string) : string :=
  match s with
  | EmptyString => EmptyString
  | String c r =>
      if is_slug_char c then String c (strip_non_slug r)
      else strip_non_slug r
  end.

(** [s.split('.')[0]]: the text before the first dot, all of [s] when it
    has none. *)
Fixpoint before_dot (s : string) : string :=
  match s with
  | EmptyString => EmptyString
  | String c r => if Ascii.eqb c "." then EmptyString else String c (before_dot r)
  end.

(** A string is falsy exactly when it is empty. *)
Definition truthy (s : string) : bool :=
  match s with EmptyString => false | String _ _ => true end.

Fixpoint all_chars (p : ascii -> bool) (s : string) : bool :=
  match s with
  | EmptyString => true
  | String c r => p c && all_chars p r
  end.

End Str.

(** ** JSON: values, [JSON.stringify] and [JSON.parse] *)

Module Json.

Definition text := list ascii.

(** A number is kept as the literal it was read from. *)
Inductive value : Type :=
| JNull
| JBool (b : bool)
| JNum (literal : string)
| JStr (s : string)
| JArr (elements : list value)
| JObj (members : list (string * value)).

(** *** Printing, as [JSON.stringify] without indentation *)

Definition hex_digit (n : N) : ascii :=
  if (n <? 10)%N then ascii_of_N (48 + n) else ascii_of_N (87 + n).

(** [QuoteJSONString] on one code unit. *)
Definition escape_char (c : ascii) : text :=
  let n := Str.code c in
  if (n =? 34)%N then ["\"; "034"]%char
  else if (n =? 92)%N then ["\"; "\"]%char
  else if (n =? 8)%N then ["\"; "b"]%char
  else if (n =? 9)%N then ["\"; "t"]%char
  else if (n =? 10)%N then ["\"; "n"]%char
  else if (n =? 12)%N then ["\"; "f"]%char
  else if (n =? 13)%N then ["\"; "r"]%char
  else if (n <? 32)%N
       then ["\"; "u"; "0"; "0"; hex_digit (n / 16); hex_digit (n mod 16)]%char
  else [c].

Fixpoint escape (s : string) : text :=
  match s with
  | EmptyString => []
  | String c r => escape_char c ++ escape r
  end.

Definition quote (s : string) : text := "034"%char :: escape s ++ ["034"%char].

Fixpoint print (v : value) : text :=
  match v with
  | JNull => list_ascii_of_string "null"
  | JBool true => list_ascii_of_string "true"
  | JBool false => list_ascii_of_string "false"
  | JNum lit => list_ascii_of_string lit
  | JStr s => quote s
  | JArr l =>
      "["%char ::
      (fix elements (l : list value) : text :=
         match l with
         | [] => []
         | [v] => print v
         | v :: l' => print v ++ ","%char :: elements l'
         end) l ++ ["]"%char]
  | JObj m =>
      "{"%char ::
      (fix members (m : list (string * value)) : text :=
         match m with
         | [] => []
         | [(k, v)] => quote k ++ ":"%char :: print v
         | (k, v) :: m' => quote k ++ ":"%char :: print v ++ ","%char :: members m'
         end) m ++ ["}"%char]
  end.

Fixpoint print_elements (l : list value) : text :=
  match l with
  | [] => []
  | [v] => print v
  | v :: l' => print v ++ ","%char :: print_elements l'
  end.

Fixpoint print_members (m : list (string * value)) : text :=
  match m with
  | [] => []
  | [(k, v)] => quote k ++ ":"%char :: print v
  | (k, v) :: m' => quote k ++ ":"%char :: print v ++ ","%char :: print_members m'
  end.

Definition stringify (v : value) : string := string_of_list_ascii (print v).

(** *** Parsing, as [JSON.parse] without a reviver *)

(** JSON white space: TAB, LF, CR, SPACE. *)
Definition is_ws (c : ascii) : bool :=
  let n := Str.code c in
  (n =? 9)%N || (n =? 10)%N || (n =? 13)%N || (n =? 32)%N.

Fixpoint skip_ws (t : text) : text :=
  match t with
  | c :: r => if is_ws c then skip_ws r else t
  | [] => []
  end.

Fixpoint strip_prefix (p t : text) : option text :=
  match p, t with
  | [], _ => Some t
  | a :: p', b :: t' => if Ascii.eqb a b then strip_prefix p' t' else None
  | _ :: _, [] => None
  end.

Definition hex_value (c : ascii) : option N :=
  let n := Str.code c in
  if Str.in_range 48 57 c then Some (n - 48)%N
  else if Str.in_range 97 102 c then Some (n - 87)%N
  else if Str.in_range 65 70 c then Some (n - 55)%N
  else None.

(** The code unit of [\uXXXX]; [None] for a malformed escape and for a
    code unit above 255, which the model cannot hold. *)
Definition unicode_escape (a b c d : ascii) : option ascii :=
  match hex_value a, hex_value b, hex_value c, hex_value d with
  | Some x, Some y, Some z, Some w =>
      if ((x =? 0) && (y =? 0))%N then Some (ascii_of_N (16 * z + w)) else None
  | _, _, _, _ => None
  end.

Definition simple_escape (e : ascii) : option ascii :=
  let n := Str.code e in
  if (n =? 34)%N then Some "034"%char
  else if (n =? 92)%N then Some "\"%char
  else if (n =? 47)%N then Some "/"%char
  else if (n =? 98)%N then Some (ascii_of_N 8)
  else if (n =? 102)%N then Some (ascii_of_N 12)
  else if (n =? 110)%N then Some (ascii_of_N 10)
  else if (n =? 114)%N then Some (ascii_of_N 13)
  else if (n =? 116)%N then Some (ascii_of_N 9)
  else None.

(** The characters of a string literal, after its opening quote, up to
    and including the closing quote. *)
Fixpoint parse_chars (t : text) : option (string * text) :=
  match t with
  | [] => None
  | c :: r =>
      if (Str.code c =? 34)%N then Some (EmptyString, r)
      else if (Str.code c =? 92)%N then
        match r with
        | [] => None
        | e :: r1 =>
            if (Str.code e =? 117)%N then
              match r1 with
              | h1 :: h2 :: h3 :: h4 :: r2 =>
                  match unicode_escape h1 h2 h3 h4, parse_chars r2 with
                  | Some u, Some (s, r3) => Some (String u s, r3)
                  | _, _ => None
                  end
              | _ => None
              end
            else
              match simple_escape e, parse_chars r1 with
              | Some u, Some (s, r3) => Some (String u s, r3)
              | _, _ => None
              end
        end
      else if (Str.code c <? 32)%N then None
      else
        match parse_chars r with
        | Some (s, r3) => Some (String c s, r3)
        | None => None
        end
  end.

Definition is_digit (c : ascii) : bool := Str.in_range 48 57 c.

Fixpoint span_digits (t : text) : text * text :=
  match t with
  | c :: r => if is_digit c then let (d, r') := span_digits r in (c :: d, r')
              else ([], t)
  | [] => ([], [])
  end.

(** The integer part of a number: [0], or a non-zero digit and digits. *)
Definition parse_int (t : text) : option (text * text) :=
  match t with
  | c :: r =>
      if (Str.code c =? 48)%N then Some ([c], r)
      else if is_digit c then let (d, r') := span_digits r in Some (c :: d, r')
      else None
  | [] => None
  end.

Definition parse_frac (t : text) : option (text * text) :=
  match t with
  | c :: r =>
      if (Str.code c =? 46)%N then
        match span_digits r with
        | ([], _) => None
        | (d, r') => Some (c :: d, r')
        end
      else Some ([], t)
  | [] => Some ([], [])
  end.

Definition parse_exp (t : text) : option (text * text) :=
  match t with
  | c :: r =>
      if (Str.code c =? 101)%N || (Str.code c =? 69)%N then
        let (sign, r1) :=
          match r with
          | s :: r' =>
              if (Str.code s =? 43)%N || (Str.code s =? 45)%N then ([s], r') else ([], r)
          | [] => ([], r)
          end in
        match span_digits r1 with
        | ([], _) => None
        | (d, r') => Some (c :: sign ++ d, r')
        end
      else Some ([], t)
  | [] => Some ([], [])
  end.

Definition parse_number (t : text) : option (value * text) :=
  let (minus, t0) :=
    match t with
    | c :: r => if (Str.code c =? 45)%N then ([c], r) else ([], t)
    | [] => ([], t)
    end in
  match parse_int t0 with
  | None => None
  | Some (i, t1) =>
      match parse_frac t1 with
      | None => None
      | Some (f, t2) =>
          match parse_exp t2 with
          | None => None
          | Some (e, t3) =>
              Some (JNum (string_of_list_ascii (minus ++ i ++ f ++ e)), t3)
          end
      end
  end.

(** One value, with the text that follows it.  [fuel] bounds the depth of
    the calls; [parse] gives one more than the text has characters. *)
Fixpoint parse_value (fuel : nat) (t : text) : option (value * text) :=
  match fuel with
  | O => None
  | S n =>
      match skip_ws t with
      | [] => None
      | c :: r =>
          let k := Str.code c in
          if (k =? 110)%N then
            match strip_prefix (list_ascii_of_string "ull") r with
            | Some r' => Some (JNull, r') | None => None end
          else if (k =? 116)%N then
            match strip_prefix (list_ascii_of_string "rue") r with
            | Some r' => Some (JBool true, r') | None => None end
          else if (k =? 102)%N then
            match strip_prefix (list_ascii_of_string "alse") r with
            | Some r' => Some (JBool false, r') | None => None end
          else if (k =? 34)%N then
            match parse_chars r with
            | Some (s, r') => Some (JStr s, r') | None => None end
          else if (k =? 91)%N then
            match skip_ws r with
            | [] => None
            | c' :: r' =>
                if (Str.code c' =? 93)%N then Some (JArr [], r')
                else match parse_elements n (c' :: r') with
                     | Some (l, r'') => Some (JArr l, r'') | None => None end
            end
          else if (k =? 123)%N then
            match skip_ws r with
            | [] => None
            | c' :: r' =>
                if (Str.code c' =? 125)%N then Some (JObj [], r')
                else match parse_members n (c' :: r') with
                     | Some (m, r'') => Some (JObj m, r'') | None => None end
            end
          else parse_number (c :: r)
      end
  end
with parse_elements (fuel : nat) (t : text) : option (list value * text) :=
  match fuel with
  | O => None
  | S n =>
      match parse_value n t with
      | None => None
      | Some (v, r) =>
          match skip_ws r with
          | [] => None
          | c :: r' =>
              if (Str.code c =? 44)%N then
                match parse_elements n r' with
                | Some (l, r'') => Some (v :: l, r'') | None => None end
              else if (Str.code c =? 93)%N then Some ([v], r')
              else None
          end
      end
  end
with parse_members (fuel : nat) (t : text) : option (list (string * value) * text) :=
  match fuel with
  | O => None
  | S n =>
      match skip_ws t with
      | [] => None
      | q :: r0 =>
          if negb (Str.code q =? 34)%N then None else
          match parse_chars r0 with
          | None => None
          | Some (key, r1) =>
              match skip_ws r1 with
              | [] => None
              | c1 :: r2 =>
                  if negb (Str.code c1 =? 58)%N then None else
                  match parse_value n r2 with
                  | None => None
                  | Some (v, r3) =>
                      match skip_ws r3 with
                      | [] => None
                      | c :: r' =>
                          if (Str.code c =? 44)%N then
                            match parse_members n r' with
                            | Some (m, r'') => Some ((key, v) :: m, r'')
                            | None => None end
                          else if (Str.code c =? 125)%N then Some ([(key, v)], r')
                          else None
                      end
                  end
              end
          end
      end
  end.

(** [JSON.parse]: one value, white space around it, nothing else.
    [None] stands for the [SyntaxError] that [JSON.parse] throws. *)
Definition parse (s : string) : option value :=
  let t := list_ascii_of_string s in
  match parse_value (S (List.length t)) t with
  | Some (v, r) => match skip_ws r with [] => Some v | _ :: _ => None end
  | None => None
  end.

(** The value of a property; the last of several members of one name is
    the one [JSON.parse] keeps. *)
Fixpoint get (k : string) (m : list (string * value)) : option value :=
  match m with
  | [] => None
  | (k', v) :: m' =>
      match get k m' with
      | Some w => Some w
      | None => if String.eqb k k' then Some v else None
      end
  end.

(** Values without numbers: all that the card itself ever writes. *)
Fixpoint no_number (v : value) : bool :=
  match v with
  | JNum _ => false
  | JArr l => forallb no_number l
  | JObj m => forallb (fun kv => no_number (snd kv)) m
  | _ => true
  end.

(** The first character of a printed value: not white space, and neither
    bracket's closing character. *)
Definition opens (t : text) : Prop :=
  match t with
  | c :: _ => is_ws c = false /\ (Str.code c =? 93)%N = false /\ (Str.code c =? 125)%N = false
  | [] => False
  end.

(** *** Truthiness *)

(** The mantissa of a number literal: its digits as one number, with the
    count of those after the point, and what follows the exponent mark. *)
Fixpoint mantissa (s : string) (after_point : bool) (digits fraction : N)
  : N * N * string :=
  match s with
  | EmptyString => (digits, fraction, EmptyString)
  | String c r =>
      if Str.in_range 48 57 c then
        mantissa r after_point (10 * digits + (Str.code c - 48))%N
          (if after_point then fraction + 1 else fraction)%N
      else if (Str.code c =? 46)%N then mantissa r true digits fraction
      else if (Str.code c =? 45)%N then mantissa r after_point digits fraction
      else (digits, fraction, r)
  end.

Fixpoint digits_value (s : string) (n : N) : N :=
  match s with
  | EmptyString => n
  | String c r => digits_value r (10 * n + (Str.code c - 48))%N
  end.

(** The exponent of a literal, from the text after [e] or [E]. *)
Definition exponent (s : string) : Z :=
  match s with
  | EmptyString => 0
  | String c r =>
      if (Str.code c =? 45)%N then - Z.of_N (digits_value r 0)
      else if (Str.code c =? 43)%N then Z.of_N (digits_value r 0)
      else Z.of_N (digits_value s 0)
  end.

(** The literals that a double reads as zero: those whose digits are all
    zero, and those of a value of at most [2^-1075], half the least
    positive double, which rounds to zero. *)
Definition reads_as_zero (literal : string) : bool :=
  let '(digits, fraction, rest) := mantissa literal false 0%N 0%N in
  let e := (exponent rest - Z.of_N fraction)%Z in
  (digits =? 0)%N
  || ((e <? 0)%Z && (Z.of_N digits * 2 ^ 1075 <=? 10 ^ (- e))%Z).

(** [!!v] *)
Definition truthy (v : value) : bool :=
  match v with
  | JNull => false
  | JBool b => b
  | JNum literal => negb (reads_as_zero literal)
  | JStr s => Str.truthy s
  | JArr _ | JObj _ => true
  end.

End Json.


(** ** Completions *)

Inductive JsError : Type :=
| SecurityError
| QuotaExceededError
| SyntaxError
| TypeError.

Inductive Completion (A : Type) : Type :=
| Normal (a : A)
| Throw (e : JsError).

Arguments Normal {A} a.
Arguments Throw {A} e.

Definition is_normal {A : Type} (c : Completion A) : bool :=
  match c with Normal _ => true | Throw _ => false end.

(** ** [localStorage]: a string-keyed, string-valued store *)

Module Storage.

(** [accessible] is false where the browser denies the page its storage;
    [quota] bounds the characters the store holds. *)
Record t : Type := {
  items : gmap string string;
  accessible : bool;
  quota : nat
}.

Definition usage (m : gmap string string) : nat :=
  map_fold (fun k v n => (String.length k + String.length v + n)%nat) 0%nat m.

Definition getItem (k : string) (st : t) : Completion (option string) :=
  if accessible st then Normal (items st !! k) else Throw SecurityError.

Definition setItem (k v : string) (st : t) : Completion t :=
  if negb (accessible st) then Throw SecurityError
  else
    let m := <[k := v]> (items st) in
    if (usage m <=? quota st)%nat
    then Normal {| items := m; accessible := accessible st; quota := quota st |}
    else Throw QuotaExceededError.

End Storage.

(** ** The data model: rooms and their category buckets *)

Inductive Category : Type :=
| cat_lights
| cat_climate
| cat_media
| cat_sensors
| cat_switches.

(** The name of the category's property in a room object. *)
Definition category_key (c : Category) : string :=
  match c with
  | cat_lights => "lights"
  | cat_climate => "climate"
  | cat_media => "media"
  | cat_sensors => "sensors"
  | cat_switches => "switches"
  end.

(** A room object.  A property that the object does not have is [None]:
    [icon] is written by the root copy only, and a room read from storage
    may lack a bucket.  The order of the properties of an object is not
    part of the model. *)
Record Room : Type := {
  id : string;
  name : string;
  icon : option string;
  lights : option (list string);
  climate : option (list string);
  media : option (list string);
  sensors : option (list string);
  switches : option (list string)
}.

(** [room[category]] *)
Definition bucket (r : Room) (c : Category) : option (list string) :=
  match c with
  | cat_lights => lights r
  | cat_climate => climate r
  | cat_media => media r
  | cat_sensors => sensors r
  | cat_switches => switches r
  end.

(** [room[category] = b] *)
Definition set_bucket (r : Room) (c : Category) (b : list string) : Room :=
  match c with
  | cat_lights =>
      {| id := id r; name := name r; icon := icon r; lights := Some b;
         climate := climate r; media := media r; sensors := sensors r;
         switches := switches r |}
  | cat_climate =>
      {| id := id r; name := name r; icon := icon r; lights := lights r;
         climate := Some b; media := media r; sensors := sensors r;
         switches := switches r |}
  | cat_media =>
      {| id := id r; name := name r; icon := icon r; lights := lights r;
         climate := climate r; media := Some b; sensors := sensors r;
         switches := switches r |}
  | cat_sensors =>
      {| id := id r; name := name r; icon := icon r; lights := lights r;
         climate := climate r; media := media r; sensors := Some b;
         switches := switches r |}
  | cat_switches =>
      {| id := id r; name := name r; icon := icon r; lights := lights r;
         climate := climate r; media := media r; sensors := sensors r;
         switches := Some b |}
  end.

(** The value of [this._rooms].  The constructor of the card leaves it
    undefined; [JSON.parse] may give any value, and the model follows the
    card's methods only on an array of room objects ([RoomList]). *)
Inductive RoomsValue : Type :=
| Undefined
| RoomList (rooms : list Room)
| Other (v : Json.value).

(** *** Rooms as JSON *)

Definition strings_to_json (l : list string) : Json.value :=
  Json.JArr (map Json.JStr l).

Definition optional (k : string) (o : option Json.value) : list (string * Json.value) :=
  match o with Some v => [(k, v)] | None => [] end.

(** The properties in the order of the object literals of [getDefaultRooms]
    and [addRoom]. *)
Definition room_to_json (r : Room) : Json.value :=
  Json.JObj
    ([("id", Json.JStr (id r)); ("name", Json.JStr (name r))]
     ++ optional "icon" (Json.JStr <$> icon r)
     ++ optional (category_key cat_lights) (strings_to_json <$> lights r)
     ++ optional (category_key cat_climate) (strings_to_json <$> climate r)
     ++ optional (category_key cat_media) (strings_to_json <$> media r)
     ++ optional (category_key cat_sensors) (strings_to_json <$> sensors r)
     ++ optional (category_key cat_switches) (strings_to_json <$> switches r)).

Definition rooms_to_json (rs : list Room) : Json.value :=
  Json.JArr (map room_to_json rs).

(** [JSON.stringify(this._rooms)], as [localStorage.setItem] stores it:
    [JSON.stringify(undefined)] is [undefined], stored as its name. *)
Definition JSON_stringify (rv : RoomsValue) : string :=
  match rv with
  | Undefined => "undefined"
  | RoomList rs => Json.stringify (rooms_to_json rs)
  | Other v => Json.stringify v
  end.

Definition as_string (v : Json.value) : option string :=
  match v with Json.JStr s => Some s | _ => None end.

Fixpoint as_strings (l : list Json.value) : option (list string) :=
  match l with
  | [] => Some []
  | v :: l' =>
      match as_string v, as_strings l' with
      | Some s, Some ss => Some (s :: ss)
      | _, _ => None
      end
  end.

Definition as_string_array (v : Json.value) : option (list string) :=
  match v with Json.JArr l => as_strings l | _ => None end.

(** A property that may be absent: [Some None] when absent, [None] when
    present with a value of another kind. *)
Definition optional_property {A : Type} (read : Json.value -> option A)
    (k : string) (m : list (string * Json.value)) : option (option A) :=
  match Json.get k m with
  | None => Some None
  | Some v => match read v with Some a => Some (Some a) | None => None end
  end.

Definition room_keys : list string :=
  ["id"; "name"; "icon"; "lights"; "climate"; "media"; "sensors"; "switches"].

Definition known_key (k : string) : bool :=
  existsb (String.eqb k) room_keys.

(** A parsed object seen as a room: every property is one of [room_keys],
    [id] and [name] are strings, [icon] if present is a string, and a
    bucket if present is an array of strings. *)
Definition as_room (v : Json.value) : option Room :=
  match v with
  | Json.JObj m =>
      if negb (forallb (fun kv => known_key (fst kv)) m) then None else
      match Json.get "id" m ≫= as_string, Json.get "name" m ≫= as_string,
            optional_property as_string "icon" m,
            optional_property as_string_array (category_key cat_lights) m,
            optional_property as_string_array (category_key cat_climate) m,
            optional_property as_string_array (category_key cat_media) m,
            optional_property as_string_array (category_key cat_sensors) m,
            optional_property as_string_array (category_key cat_switches) m with
      | Some i, Some n, Some ic, Some l, Some c, Some me, Some se, Some sw =>
          Some {| id := i; name := n; icon := ic; lights := l; climate := c;
                  media := me; sensors := se; switches := sw |}
      | _, _, _, _, _, _, _, _ => None
      end
  | _ => None
  end.

Fixpoint as_rooms (l : list Json.value) : option (list Room) :=
  match l with
  | [] => Some []
  | v :: l' =>
      match as_room v, as_rooms l' with
      | Some r, Some rs => Some (r :: rs)
      | _, _ => None
      end
  end.

(** The parsed value as [this._rooms] holds it. *)
Definition rooms_of_json (v : Json.value) : RoomsValue :=
  match v with
  | Json.JArr l =>
      match as_rooms l with Some rs => RoomList rs | None => Other v end
  | _ => Other v
  end.

(** ** The host: live states and service calls *)

(** The attributes the modelled code reads; [None] is an attribute that is
    absent or null. *)
Record Attributes : Type := {
  temperature : option float
}.

Record EntityState : Type := {
  entity_id : string;
  state : string;
  attributes : Attributes
}.

Record Hass : Type := {
  states : gmap string EntityState
}.

Record ServiceData : Type := {
  data_entity_id : string;
  data_hvac_mode : option string;
  data_temperature : option float
}.

(** One call of [hass.callService(domain, service, data)]. *)
Record ServiceCall : Type := {
  call_domain : string;
  call_service : string;
  call_data : ServiceData
}.

(** ** The card and its world *)

Inductive Modal : Type :=
| modal_entity
| modal_room.

Record ModalData : Type := {
  modal_category : string;
  modal_domain : string
}.

Record Config : Type := {
  location : string;
  weather_entity : string;
  energy_entity : string;
  storage_key : string
}.

Record Card : Type := {
  _hass : option Hass;
  _config : Config;
  _activeRoom : Z;
  _editMode : bool;
  _modal : option Modal;
  _modalData : option ModalData;
  _rooms : RoomsValue
}.

Record World : Type := {
  this : Card;
  localStorage : Storage.t;
  console : list string;
  service_calls : list ServiceCall;
  renders : nat
}.

Definition Js (A : Type) : Type := World -> Completion A * World.

Definition ret {A : Type} (a : A) : Js A := fun w => (Normal a, w).

Definition bind {A B : Type} (m : Js A) (k : A -> Js B) : Js B :=
  fun w =>
    match m w with
    | (Normal a, w') => k a w'
    | (Throw e, w') => (Throw e, w')
    end.

Definition throw {A : Type} (e : JsError) : Js A := fun w => (Throw e, w).

(** [try { m } catch (e) { h e }] *)
Definition try_catch {A : Type} (m : Js A) (h : JsError -> Js A) : Js A :=
  fun w =>
    match m w with
    | (Normal a, w') => (Normal a, w')
    | (Throw e, w') => h e w'
    end.

Notation "'let*' x ':=' m 'in' k" := (bind m (fun x => k))
  (at level 10, x name, m at level 100, k at level 200).
Notation "m ';;' k" := (bind m (fun _ => k))
  (at level 100, k at level 200, right associativity).

Definition read_this : Js Card := fun w => (Normal (this w), w).

Definition world_with_this (w : World) (c : Card) : World :=
  {| this := c; localStorage := localStorage w; console := console w;
     service_calls := service_calls w; renders := renders w |}.

Definition world_with_calls (w : World) (calls : list ServiceCall) : World :=
  {| this := this w; localStorage := localStorage w; console := console w;
     service_calls := calls; renders := renders w |}.

Definition write_this (c : Card) : Js unit :=
  fun w => (Normal tt, world_with_this w c).

Definition localStorage_getItem (k : string) : Js (option string) :=
  fun w => (Storage.getItem k (localStorage w), w).

Definition localStorage_setItem (k v : string) : Js unit :=
  fun w =>
    match Storage.setItem k v (localStorage w) with
    | Normal st =>
        (Normal tt,
         {| this := this w; localStorage := st; console := console w;
            service_calls := service_calls w; renders := renders w |})
    | Throw e => (Throw e, w)
    end.

Definition console_error (msg : string) : Js unit :=
  fun w => (Normal tt,
            {| this := this w; localStorage := localStorage w;
               console := console w ++ [msg];
               service_calls := service_calls w; renders := renders w |}).

Definition JSON_parse (s : string) : Js Json.value :=
  match Json.parse s with
  | Some v => ret v
  | None => throw SyntaxError
  end.

Definition card_with_rooms (c : Card) (rv : RoomsValue) : Card :=
  {| _hass := _hass c; _config := _config c;
     _activeRoom := _activeRoom c; _editMode := _editMode c;
     _modal := _modal c; _modalData := _modalData c;
     _rooms := rv |}.

Definition card_with_activeRoom (c : Card) (i : Z) : Card :=
  {| _hass := _hass c; _config := _config c;
     _activeRoom := i; _editMode := _editMode c;
     _modal := _modal c; _modalData := _modalData c;
     _rooms := _rooms c |}.

(** [this._rooms = rv] *)
Definition set_rooms (rv : RoomsValue) : Js unit :=
  let* c := read_this in
  write_this (card_with_rooms c rv).

(** [this._activeRoom = i] *)
Definition set_activeRoom (i : Z) : Js unit :=
  let* c := read_this in
  write_this (card_with_activeRoom c i).

(** ** The methods of the card *)

(** The two copies of the card in the repository. *)
Inductive Copy : Type :=
| root_copy   (* version 1.0.2 *)
| dist_copy.  (* dist/glassmorphism-dashboard.js, version 1.0.5 *)

Definition empty_room (i n : string) (ic : option string) : Room :=
  {| id := i; name := n; icon := ic;
     lights := Some []; climate := Some []; media := Some [];
     sensors := Some []; switches := Some [] |}.

Definition getDefaultRooms (copy : Copy) : list Room :=
  match copy with
  | root_copy =>
      [ empty_room "woonkamer" "Woonkamer" (Some "mdi:sofa");
        empty_room "slaapkamer" "Slaapkamer" (Some "mdi:bed");
        empty_room "keuken" "Keuken" (Some "mdi:silverware-fork-knife") ]
  | dist_copy =>
      [ empty_room "woonkamer" "Woonkamer" None;
        empty_room "slaapkamer" "Slaapkamer" None;
        empty_room "keuken" "Keuken" None;
        empty_room "kantoor" "Kantoor" None;
        empty_room "zolder" "Zolder" None ]
  end.

Definition default_storage_key : string := "glassmorphism_dashboard_rooms".

(** The state the constructor leaves.  [_config] is the empty object
    until [setConfig] assigns it, and no method reads it before; the model
    puts empty strings there. *)
Definition constructor : Card :=
  {| _hass := None;
     _config := {| location := ""; weather_entity := ""; energy_entity := "";
                   storage_key := "" |};
     _activeRoom := 0; _editMode := false; _modal := None; _modalData := None;
     _rooms := Undefined |}.

Definition saveRoomConfig : Js unit :=
  try_catch
    (let* c := read_this in
     localStorage_setItem (storage_key (_config c)) (JSON_stringify (_rooms c)))
    (fun e => console_error "Glassmorphism Dashboard: Error saving room config:").

Definition loadRoomConfig (copy : Copy) : Js unit :=
  try_catch
    (let* c := read_this in
     let* saved := localStorage_getItem (storage_key (_config c)) in
     match saved with
     | Some s =>
         if Str.truthy s then
           let* v := JSON_parse s in
           set_rooms (rooms_of_json v)
         else
           set_rooms (RoomList (getDefaultRooms copy)) ;;
           saveRoomConfig
     | None =>
         set_rooms (RoomList (getDefaultRooms copy)) ;;
         saveRoomConfig
     end)
    (fun e =>
       console_error "Glassmorphism Dashboard: Error loading room config:" ;;
       set_rooms (RoomList (getDefaultRooms copy))).

(** [l[i]] for a number [i] that is an integer. *)
Definition nth_Z {A : Type} (l : list A) (i : Z) : option A :=
  if i <? 0 then None else l !! Z.to_nat i.

(** [this._rooms[this._activeRoom]] followed by the reading of a property
    of the room, which throws when there is no such room.  On a value that
    is not a list of rooms the model stops with the same error. *)
Definition active_room : Js (list Room * Room) :=
  let* c := read_this in
  match _rooms c with
  | RoomList rs =>
      match nth_Z rs (_activeRoom c) with
      | Some r => ret (rs, r)
      | None => throw TypeError
      end
  | Undefined => throw TypeError
  | Other _ => throw TypeError
  end.

(** The assignment to a property of the active room, which is an element
    of [this._rooms]. *)
Definition update_active_room (r : Room) : Js unit :=
  let* c := read_this in
  match _rooms c with
  | RoomList rs => set_rooms (RoomList (<[Z.to_nat (_activeRoom c) := r]> rs))
  | _ => throw TypeError
  end.

(** [render]: nothing without [hass] or with rooms that are false; else
    the active room is read, which throws when there is none, and the
    markup is rebuilt.  The model counts the rebuilding and does not build
    the markup, so that an error of the building is outside the model.  A
    value that is true and is no list of rooms makes the method throw: a
    number, a text and an object on the reading of the room or on the call
    of [map]; on an array that is no list of rooms the model stops with
    the same error. *)
Definition render : Js unit :=
  let* c := read_this in
  match _hass c, _rooms c with
  | None, _ => ret tt
  | Some _, Undefined => ret tt
  | Some _, Other v => if Json.truthy v then throw TypeError else ret tt
  | Some _, RoomList _ =>
      let* _ := active_room in
      fun w => (Normal tt,
                {| this := this w; localStorage := localStorage w;
                   console := console w; service_calls := service_calls w;
                   renders := S (renders w) |})
  end.

(** The names of the properties that every object inherits from
    [Object.prototype]. *)
Definition object_prototype_names : list string :=
  [ "constructor"; "__proto__"; "hasOwnProperty"; "isPrototypeOf";
    "propertyIsEnumerable"; "toLocaleString"; "toString"; "valueOf";
    "__defineGetter__"; "__defineSetter__"; "__lookupGetter__";
    "__lookupSetter__" ].

(** What the reading of a property of [hass.states] gives: the state of
    an entity, or, for a name that the object does not have itself but
    inherits, the inherited function or object, which has neither a
    [state] nor [attributes]. *)
Inductive StateValue : Type :=
| live_state (st : EntityState)
| inherited_value (name : string).

(** [states[entityId]]; [None] is [undefined]. *)
Definition state_lookup (h : Hass) (entityId : string) : option StateValue :=
  match states h !! entityId with
  | Some st => Some (live_state st)
  | None =>
      if existsb (String.eqb entityId) object_prototype_names
      then Some (inherited_value entityId)
      else None
  end.

(** [v.state]; [None] is [undefined]. *)
Definition value_state (v : StateValue) : option string :=
  match v with
  | live_state st => Some (state st)
  | inherited_value _ => None
  end.

(** [this._hass?.states?.[entityId]] *)
Definition getState (entityId : string) : Js (option StateValue) :=
  let* c := read_this in
  ret (match _hass c with
       | Some h => state_lookup h entityId
       | None => None
       end).

Definition callService (domain service : string) (data : ServiceData) : Js unit :=
  let* c := read_this in
  match _hass c with
  | None => ret tt
  | Some _ =>
      fun w => (Normal tt,
                world_with_calls w
                  (service_calls w ++
                   [{| call_domain := domain; call_service := service;
                       call_data := data |}]))
  end.

(** Every value that [getState] finds passes the test of the [if]: an
    inherited function or object is as true as a state. *)
Definition toggleEntity (entityId : string) : Js unit :=
  let* st := getState entityId in
  match st with
  | None => ret tt
  | Some v =>
      let domain := Str.before_dot entityId in
      if String.eqb domain "climate" then
        let newMode :=
          match value_state v with
          | Some s => if String.eqb s "off" then "heat_cool" else "off"
          | None => "off"
          end in
        callService "climate" "set_hvac_mode"
          {| data_entity_id := entityId; data_hvac_mode := Some newMode;
             data_temperature := None |}
      else
        callService "homeassistant" "toggle"
          {| data_entity_id := entityId; data_hvac_mode := None;
             data_temperature := None |}
  end.

Definition setTemperature (entityId : string) (t : float) : Js unit :=
  callService "climate" "set_temperature"
    {| data_entity_id := entityId; data_hvac_mode := None;
       data_temperature := Some t |}.

(** [b.includes(x)] on an array of strings. *)
Definition includes (x : string) (b : list string) : bool :=
  existsb (String.eqb x) b.

Definition addEntityToRoom (entityId : string) (category : Category) : Js unit :=
  let* rr := active_room in
  let room := snd rr in
  (match bucket room category with
   | None => update_active_room (set_bucket room category [])
   | Some _ => ret tt
   end) ;;
  let* rr := active_room in
  let room := snd rr in
  let b := default [] (bucket room category) in
  if negb (includes entityId b) then
    update_active_room (set_bucket room category (b ++ [entityId])) ;;
    saveRoomConfig ;;
    render
  else ret tt.

Definition removeEntityFromRoom (entityId : string) (category : Category) : Js unit :=
  let* rr := active_room in
  let room := snd rr in
  match bucket room category with
  | Some b =>
      update_active_room
        (set_bucket room category
           (List.filter (fun i => negb (String.eqb i entityId)) b)) ;;
      saveRoomConfig ;;
      render
  | None => ret tt
  end.

(** The identifier that [addRoom] derives from a name. *)
Definition slug (name : string) : string :=
  Str.strip_non_slug (Str.replace_white_runs false (Str.toLowerCase name)).

Definition new_room_icon (copy : Copy) : option string :=
  match copy with root_copy => Some "mdi:home" | dist_copy => None end.

(** *** The identifier in the words of the specification *)

(** The derivation as the specification words it: the name in lower case,
    every run of white space collapsed to one underscore, every character
    outside a-z, 0-9 and underscore stripped.  It is written apart from
    [slug], on lists of characters, with the classes of characters as
    tables and the runs found by looking at the character that follows, to
    be compared with [slug]. *)

(** The capital letters of the code units 0..255, and their small
    letters at the same places. *)
Definition capital_letters : list ascii :=
  list_ascii_of_string "ABCDEFGHIJKLMNOPQRSTUVWXYZ"
  ++ map ascii_of_nat (seq 192 23 ++ seq 216 7).

Definition small_letters : list ascii :=
  list_ascii_of_string "abcdefghijklmnopqrstuvwxyz"
  ++ map ascii_of_nat (seq 224 23 ++ seq 248 7).

Definition lowercased (c : ascii) : ascii :=
  match List.find (fun p => Ascii.eqb (fst p) c) (combine capital_letters small_letters) with
  | Some p => snd p
  | None => c
  end.

(** TAB, LF, VT, FF, CR, SPACE and NO-BREAK SPACE. *)
Definition white_space : list ascii :=
  map ascii_of_nat [9; 10; 11; 12; 13; 32; 160]%nat.

Definition identifier_alphabet : list ascii :=
  list_ascii_of_string "abcdefghijklmnopqrstuvwxyz0123456789_".

Definition one_of (l : list ascii) (c : ascii) : bool := existsb (Ascii.eqb c) l.

(** A name cut in pieces: a character that is kept as it is, or a gap,
    which is one character of white space. *)
Inductive Piece : Type :=
| piece_char (c : ascii)
| piece_gap.

Definition piece_of (c : ascii) : Piece :=
  if one_of white_space c then piece_gap else piece_char c.

(** Of the gaps of a run only the last stays. *)
Fixpoint collapse_gaps (l : list Piece) : list Piece :=
  match l with
  | [] => []
  | piece_gap :: ((piece_gap :: _) as r) => collapse_gaps r
  | p :: r => p :: collapse_gaps r
  end.

Definition piece_text (p : Piece) : ascii :=
  match p with
  | piece_char c => c
  | piece_gap => "_"
  end.

Definition slug_spec (name : string) : string :=
  string_of_list_ascii
    (List.filter (one_of identifier_alphabet)
       (map piece_text
          (collapse_gaps
             (map piece_of (map lowercased (list_ascii_of_string name)))))).

(** [this._rooms] when a method of [Array] is called on it. *)
Definition rooms_array : Js (list Room) :=
  let* c := read_this in
  match _rooms c with
  | RoomList rs => ret rs
  | _ => throw TypeError
  end.

Definition addRoom (copy : Copy) (name : string) : Js unit :=
  let id := slug name in
  let* rs := rooms_array in
  set_rooms (RoomList (rs ++ [empty_room id name (new_room_icon copy)])) ;;
  saveRoomConfig ;;
  let* rs := rooms_array in
  set_activeRoom (Z.of_nat (List.length rs) - 1) ;;
  render.

(** [l.splice(index, 1)]: a negative [index] counts from the end, one past
    the end removes nothing. *)
Definition splice1 {A : Type} (l : list A) (index : Z) : list A :=
  let len := Z.of_nat (List.length l) in
  let start := if index <? 0 then Z.max (len + index) 0 else Z.min index len in
  take (Z.to_nat start) l ++ drop (S (Z.to_nat start)) l.

Definition removeRoom (index : Z) : Js unit :=
  let* rs := rooms_array in
  if Z.of_nat (List.length rs) >? 1 then
    set_rooms (RoomList (splice1 rs index)) ;;
    let* c := read_this in
    let* rs := rooms_array in
    (if _activeRoom c >=? Z.of_nat (List.length rs)
     then set_activeRoom (Z.of_nat (List.length rs) - 1)
     else ret tt) ;;
    saveRoomConfig ;;
    render
  else ret tt.

(** *** The climate tile and its temperature buttons *)

(** A number is falsy when it is zero or not a number. *)
Definition number_truthy (x : float) : bool :=
  negb (PrimFloat.eqb x 0%float) && PrimFloat.eqb x x.

(** [entity.attributes.temperature || 20] *)
Definition targetTemp (entity : EntityState) : float :=
  match temperature (attributes entity) with
  | Some t => if number_truthy t then t else 20%float
  | None => 20%float
  end.

(** A button of class [temp-btn].  [data_temp] is the number that the
    attribute [data-temp] spells; [parseFloat] reads it back. *)
Record TempBtn : Type := {
  data_temp_entity : string;
  data_temp : float
}.

Record ClimateTile : Type := {
  tile_entity : string;
  minus_btn : TempBtn;
  plus_btn : TempBtn
}.

Definition renderClimateDevice (entity : EntityState) : ClimateTile :=
  let t := targetTemp entity in
  {| tile_entity := entity_id entity;
     minus_btn := {| data_temp_entity := entity_id entity;
                     data_temp := PrimFloat.sub t 0.5%float |};
     plus_btn := {| data_temp_entity := entity_id entity;
                    data_temp := PrimFloat.add t 0.5%float |} |}.

(** The climate tiles that [render] shows: those of the identifiers in the
    active room's [climate] bucket that have a state. *)
Definition climate_tiles (c : Card) : list ClimateTile :=
  match _rooms c, _hass c with
  | RoomList rs, Some h =>
      match nth_Z rs (_activeRoom c) with
      | Some room =>
          map renderClimateDevice
            (omap (fun i => states h !! i) (default [] (climate room)))
      | None => []
      end
  | _, _ => []
  end.

(** The click listener of a [temp-btn]. *)
Definition click_temp_btn (btn : TempBtn) : Js unit :=
  setTemperature (data_temp_entity btn) (data_temp btn).

(** Running a method from a world: the completion and the world after. *)
Definition completion {A : Type} (m : Js A) (w : World) : Completion A := fst (m w).
Definition after {A : Type} (m : Js A) (w : World) : World := snd (m w).

(** The card that [setConfig] hands to [loadRoomConfig]: the constructor's
    fields, with [_config] assigned. *)
Definition configured (cfg : Config) : Card :=
  {| _hass := _hass constructor; _config := cfg;
     _activeRoom := _activeRoom constructor; _editMode := _editMode constructor;
     _modal := _modal constructor; _modalData := _modalData constructor;
     _rooms := _rooms constructor |}.

(** A page that has just been opened on storage [st]. *)
Definition opened (cfg : Config) (st : Storage.t) : World :=
  {| this := configured cfg; localStorage := st; console := [];
     service_calls := []; renders := 0 |}.

(** The live state of an identifier: the state that the host object has
    under it. *)
Definition resolved (c : Card) (entityId : string) : option EntityState :=
  match _hass c with
  | Some h => states h !! entityId
  | None => None
  end.

(** What [getState] finds under an identifier: its live state, or the
    inherited property of that name. *)
Definition looked_up (c : Card) (entityId : string) : option StateValue :=
  match _hass c with
  | Some h => state_lookup h entityId
  | None => None
  end.

(** The bucket of the active room; [None] also when there is no active
    room. *)
Definition active_bucket (c : Card) (category : Category) : option (list string) :=
  match _rooms c with
  | RoomList rs =>
      match nth_Z rs (_activeRoom c) with
      | Some room => bucket room category
      | None => None
      end
  | _ => None
  end.

(** The card holds a list of rooms and its active index names one. *)
Definition has_active_room (c : Card) : Prop :=
  exists rs, _rooms c = RoomList rs
             /\ 0 <= _activeRoom c < Z.of_nat (List.length rs).

(** Sequences of [addEntityToRoom] and [removeEntityFromRoom] on one
    bucket of the active room. *)
Inductive BucketOp : Type :=
| op_add (entityId : string)
| op_remove (entityId : string).

Definition run_op (category : Category) (op : BucketOp) : Js unit :=
  match op with
  | op_add e => addEntityToRoom e category
  | op_remove e => removeEntityFromRoom e category
  end.

Fixpoint run_ops (category : Category) (ops : list BucketOp) : Js unit :=
  match ops with
  | [] => ret tt
  | op :: ops' => run_op category op ;; run_ops category ops'
  end.

(** The bucket that [addEntityToRoom] leaves, and the one that
    [removeEntityFromRoom] leaves. *)
Definition added (e : string) (b : list string) : list string :=
  if includes e b then b else b ++ [e].

Definition removed (e : string) (b : list string) : list string :=
  List.filter (fun i => negb (String.eqb i e)) b.

(** The identifiers of the active room's bucket, none when it has no such
    bucket. *)
Definition bucket_ids (w : World) (category : Category) : list string :=
  default [] (active_bucket (this w) category).

(** The bucket after a sequence of operations, on the list alone. *)
Fixpoint replay (ops : list BucketOp) (b : list string) : list string :=
  match ops with
  | [] => b
  | op_add e :: ops' => replay ops' (added e b)
  | op_remove e :: ops' => replay ops' (removed e b)
  end.

(** The history of one identifier.  [joined_at e ops now since] reads the
    operations [ops], the first of which is number [now], and tells since
    which operation [e] has been a member without a break: an [op_add e]
    on a non-member makes it a member from that operation on, an
    [op_remove e] ends the membership. *)
Fixpoint joined_at (e : string) (ops : list BucketOp) (now : nat)
    (since : option nat) : option nat :=
  match ops with
  | [] => since
  | op_add x :: ops' =>
      joined_at e ops' (S now)
        (if String.eqb x e
         then match since with Some t => Some t | None => Some now end
         else since)
  | op_remove x :: ops' =>
      joined_at e ops' (S now) (if String.eqb x e then None else since)
  end.

(** Membership after a history that starts on an empty bucket. *)
Definition member_since (ops : list BucketOp) (e : string) : option nat :=
  joined_at e ops 0%nat None.

(** [x] joined before [y] did. *)
Definition joined_before (ops : list BucketOp) (x y : string) : Prop :=
  exists tx ty,
    member_since ops x = Some tx /\ member_since ops y = Some ty /\ (tx < ty)%nat.

(** The times [since], read at operation [now], describe the bucket [b]:
    its members are the identifiers that have a time, every time is past,
    and the members stand in the order of their times. *)
Definition timed (b : list string) (now : nat) (since : string -> option nat) : Prop :=
  (forall x, In x b <-> is_Some (since x))
  /\ (forall x t, since x = Some t -> (t < now)%nat)
  /\ StronglySorted
       (fun x y => exists tx ty, since x = Some tx /\ since y = Some ty /\ (tx < ty)%nat) b.

(** ** Stores, rooms and worlds of the examples *)

Definition malformed_store : Storage.t :=
  {| Storage.items := {[ default_storage_key := "{" ]};
     Storage.accessible := true; Storage.quota := 4096 |}.

Definition default_config : Config :=
  {| location := "Home"; weather_entity := ""; energy_entity := "";
     storage_key := default_storage_key |}.

Definition empty_store : Storage.t :=
  {| Storage.items := ∅; Storage.accessible := true; Storage.quota := 4096 |}.

Definition garden : Room :=
  {| id := "garden"; name := "Garden"; icon := None;
     lights := Some ["light.pond"; "light.shed"]; climate := None;
     media := Some []; sensors := Some ["sensor.rain"]; switches := Some [] |}.

Definition garden_world : World :=
  {| this := {| _hass := None; _config := default_config; _activeRoom := 0;
                _editMode := true; _modal := None; _modalData := None;
                _rooms := RoomList [garden] |};
     localStorage := empty_store; console := []; service_calls := [];
     renders := 0 |}.

Definition five_rooms_last_active : World :=
  {| this := {| _hass := None; _config := default_config; _activeRoom := 4;
                _editMode := true; _modal := None; _modalData := None;
                _rooms := RoomList (getDefaultRooms dist_copy) |};
     localStorage := empty_store; console := []; service_calls := [];
     renders := 0 |}.

Definition hvac_mode_call (entityId mode : string) : ServiceCall :=
  {| call_domain := "climate"; call_service := "set_hvac_mode";
     call_data := {| data_entity_id := entityId; data_hvac_mode := Some mode;
                     data_temperature := None |} |}.

Definition toggle_call (entityId : string) : ServiceCall :=
  {| call_domain := "homeassistant"; call_service := "toggle";
     call_data := {| data_entity_id := entityId; data_hvac_mode := None;
                     data_temperature := None |} |}.

Definition set_temperature_call (entityId : string) (t : float) : ServiceCall :=
  {| call_domain := "climate"; call_service := "set_temperature";
     call_data := {| data_entity_id := entityId; data_hvac_mode := None;
                     data_temperature := Some t |} |}.

Definition entity (i s : string) (t : option float) : EntityState :=
  {| entity_id := i; state := s; attributes := {| temperature := t |} |}.

Definition home_hass : Hass :=
  {| states :=
       <[ "climate.living" := entity "climate.living" "off" (Some 21%float) ]>
       (<[ "climate.hall" := entity "climate.hall" "heat" None ]>
       (<[ "climate.cellar" := entity "climate.cellar" "cool" (Some 0%float) ]>
       (<[ "light.desk" := entity "light.desk" "on" None ]> ∅))) |}.

Definition home_room : Room :=
  {| id := "woonkamer"; name := "Woonkamer"; icon := None;
     lights := Some ["light.desk"];
     climate := Some ["climate.living"; "climate.attic"; "climate.cellar"];
     media := Some []; sensors := Some []; switches := Some [] |}.

Definition home : World :=
  {| this := {| _hass := Some home_hass; _config := default_config;
                _activeRoom := 0; _editMode := false; _modal := None;
                _modalData := None; _rooms := RoomList [home_room] |};
     localStorage := empty_store; console := []; service_calls := [];
     renders := 0 |}.

Definition defaults_world : World :=
  {| this := {| _hass := None; _config := default_config; _activeRoom := 0;
                _editMode := true; _modal := None; _modalData := None;
                _rooms := RoomList (getDefaultRooms dist_copy) |};
     localStorage := empty_store; console := []; service_calls := [];
     renders := 0 |}.

(** ** The rest of the card: configuration, view state, listeners, tiles *)

Definition card_with_config (c : Card) (cfg : Config) : Card :=
  {| _hass := _hass c; _config := cfg;
     _activeRoom := _activeRoom c; _editMode := _editMode c;
     _modal := _modal c; _modalData := _modalData c;
     _rooms := _rooms c |}.

Definition card_with_editMode (c : Card) (b : bool) : Card :=
  {| _hass := _hass c; _config := _config c;
     _activeRoom := _activeRoom c; _editMode := b;
     _modal := _modal c; _modalData := _modalData c;
     _rooms := _rooms c |}.

Definition card_with_modal (c : Card) (m : option Modal) (d : option ModalData) : Card :=
  {| _hass := _hass c; _config := _config c;
     _activeRoom := _activeRoom c; _editMode := _editMode c;
     _modal := m; _modalData := d;
     _rooms := _rooms c |}.

(** The configuration record that the host hands to [setConfig]; [None]
    is an option that the record does not have. *)
Record CardConfig : Type := {
  config_location : option string;
  config_weather_entity : option string;
  config_energy_entity : option string;
  config_storage_key : option string
}.

(** [setConfig]: the spread of [config] after the defaults keeps every
    option that [config] has, so a default stands only for an absent one. *)
Definition setConfig (copy : Copy) (config : CardConfig) : Js unit :=
  (let* c := read_this in
   write_this
     (card_with_config c
        {| location := default "Home" (config_location config);
           weather_entity := default "" (config_weather_entity config);
           energy_entity := default "" (config_energy_entity config);
           storage_key := default default_storage_key (config_storage_key config) |})) ;;
  loadRoomConfig copy ;;
  render.

(** *** Media tiles *)

(** What [actions[action]] finds: a service of the table, nothing, or a
    property that every object inherits, which is not a service name. *)
Inductive ActionEntry : Type :=
| action_service (service : string)
| action_inherited
| action_absent.

Definition actions_entry (action : string) : ActionEntry :=
  if String.eqb action "play" then action_service "media_play"
  else if String.eqb action "pause" then action_service "media_pause"
  else if String.eqb action "next" then action_service "media_next_track"
  else if String.eqb action "prev" then action_service "media_previous_track"
  else if existsb (String.eqb action) object_prototype_names then action_inherited
  else action_absent.

(** [mediaControl].  An inherited property passes the test of the [if]
    and is handed to the host in the place of a service name; the model
    stops there with an error. *)
Definition mediaControl (entityId action : string) : Js unit :=
  match actions_entry action with
  | action_service service =>
      callService "media_player" service
        {| data_entity_id := entityId; data_hvac_mode := None;
           data_temperature := None |}
  | action_absent => ret tt
  | action_inherited => throw TypeError
  end.

(** A button of class [media-btn]. *)
Record MediaBtn : Type := {
  data_media : string;
  data_action : string
}.

Record MediaTile : Type := {
  prev_btn : MediaBtn;
  play_btn : MediaBtn;
  next_btn : MediaBtn
}.

Definition renderMediaDevice (entity : EntityState) : MediaTile :=
  let isPlaying := String.eqb (state entity) "playing" in
  {| prev_btn := {| data_media := entity_id entity; data_action := "prev" |};
     play_btn := {| data_media := entity_id entity;
                    data_action := if isPlaying then "pause" else "play" |};
     next_btn := {| data_media := entity_id entity; data_action := "next" |} |}.

(** The click listener of a [media-btn]. *)
Definition click_media_btn (btn : MediaBtn) : Js unit :=
  mediaControl (data_media btn) (data_action btn).

(** *** The entity picker *)

Definition getCategoryDomain (category : Category) : string :=
  match category with
  | cat_lights => "light"
  | cat_climate => "climate"
  | cat_media => "media_player"
  | cat_sensors => "sensor"
  | cat_switches => "switch"
  end.

(** The test of the filter of [getAvailableEntities]:
    [id.startsWith(domain + '.')]. *)
Definition offered (domain entityId : string) : bool :=
  String.prefix (String.append domain ".") entityId.

(** The click listener of an item of the picker. *)
Definition click_entity_item (entityId : string) (category : Category) : Js unit :=
  let* rr := active_room in
  let currentEntities := default [] (bucket (snd rr) category) in
  if includes entityId currentEntities
  then removeEntityFromRoom entityId category
  else addEntityToRoom entityId category.

(** *** Listeners of the view state *)

Definition click_edit_toggle : Js unit :=
  (let* c := read_this in write_this (card_with_editMode c (negb (_editMode c)))) ;;
  render.

(** A click on a room tab, outside its remove control. *)
Definition click_room_tab (index : Z) : Js unit :=
  set_activeRoom index ;;
  render.

(** A click on the remove control of a tab; [confirmed] is the answer to
    the question, which names the room and so reads it first. *)
Definition click_tab_remove (index : Z) (confirmed : bool) : Js unit :=
  let* rs := rooms_array in
  match nth_Z rs index with
  | None => throw TypeError
  | Some _ => if confirmed then removeRoom index else ret tt
  end.

(** The remove control of a tab is part of the markup only then. *)
Definition tab_remove_shown (c : Card) : bool :=
  match _rooms c with
  | RoomList rs => _editMode c && (Z.of_nat (List.length rs) >? 1)
  | _ => false
  end.

Definition click_add_room_btn : Js unit :=
  (let* c := read_this in
   write_this (card_with_modal c (Some modal_room) (_modalData c))) ;;
  render.

Definition click_add_entity_btn (category domain : string) : Js unit :=
  (let* c := read_this in
   write_this
     (card_with_modal c (Some modal_entity)
        (Some {| modal_category := category; modal_domain := domain |}))) ;;
  render.

Definition click_close_entity_modal : Js unit :=
  (let* c := read_this in write_this (card_with_modal c None None)) ;;
  render.

Definition click_close_room_modal : Js unit :=
  (let* c := read_this in write_this (card_with_modal c None (_modalData c))) ;;
  render.

(** [String.prototype.trim] on code units 0..255: the white space of
    both ends goes. *)
Fixpoint trimStart (s : string) : string :=
  match s with
  | EmptyString => EmptyString
  | String c r => if Str.is_white c then trimStart r else s
  end.

Fixpoint trimEnd (s : string) : string :=
  match s with
  | EmptyString => EmptyString
  | String c r =>
      match trimEnd r with
      | EmptyString => if Str.is_white c then EmptyString else String c EmptyString
      | r' => String c r'
      end
  end.

Definition trim (s : string) : string := trimEnd (trimStart s).

(** The click listener of the button of the room dialog; [value] is the
    text of the input, [None] when the input is not there. *)
Definition click_save_room_btn (copy : Copy) (value : option string) : Js unit :=
  match trim <$> value with
  | Some name =>
      if Str.truthy name then
        addRoom copy name ;;
        (let* c := read_this in
         write_this (card_with_modal c None (_modalData c))) ;;
        render
      else ret tt
  | None => ret tt
  end.

(** *** What a method may change *)

(** The store [st'] differs from [st] at most in the item of [key]. *)
Definition store_frame (key : string) (st st' : Storage.t) : Prop :=
  Storage.accessible st' = Storage.accessible st
  /\ Storage.quota st' = Storage.quota st
  /\ forall k, k <> key -> Storage.items st' !! k = Storage.items st !! k.

(** The world [w'] is [w] after edits of the configuration only: the
    host object, the card's options and the calls of services are those
    of [w], and so is every item of the store but the card's own. *)
Definition edited (w w' : World) : Prop :=
  _hass (this w') = _hass (this w)
  /\ _config (this w') = _config (this w)
  /\ service_calls w' = service_calls w
  /\ store_frame (storage_key (_config (this w))) (localStorage w) (localStorage w').

(** The store holds the serialization of the rooms in memory. *)
Definition in_sync (w : World) : Prop :=
  Storage.items (localStorage w) !! storage_key (_config (this w))
  = Some (JSON_stringify (_rooms (this w))).

(** The store takes the item. *)
Definition accepts (st : Storage.t) (k v : string) : Prop :=
  is_normal (Storage.setItem k v st) = true.

(** Edits of the configuration, in any order. *)
Inductive Edit : Type :=
| edit_addRoom (name : string)
| edit_removeRoom (index : Z)
| edit_addEntity (entityId : string) (category : Category)
| edit_removeEntity (entityId : string) (category : Category)
| edit_pick (entityId : string) (category : Category).

Definition run_edit (copy : Copy) (e : Edit) : Js unit :=
  match e with
  | edit_addRoom n => addRoom copy n
  | edit_removeRoom i => removeRoom i
  | edit_addEntity x c => addEntityToRoom x c
  | edit_removeEntity x c => removeEntityFromRoom x c
  | edit_pick x c => click_entity_item x c
  end.

Fixpoint run_edits (copy : Copy) (es : list Edit) : Js unit :=
  match es with
  | [] => ret tt
  | e :: es' => run_edit copy e ;; run_edits copy es'
  end.

(** A method that only edits the configuration, from every world and
    also when it throws. *)
Definition only_edits {A : Type} (m : Js A) : Prop :=
  forall w, edited w (after m w).

(** A world that differs from [w] in nothing but the calls [calls] that
    the host has received since. *)
Definition commanded (w w' : World) (calls : list ServiceCall) : Prop :=
  this w' = this w
  /\ localStorage w' = localStorage w
  /\ console w' = console w
  /\ renders w' = renders w
  /\ service_calls w' = service_calls w ++ calls.

(** What one edit leaves, seen from outside: it completes, the card still
    has an active room, and either nothing has changed or the rooms it
    leaves are the rooms that [saveRoomConfig] was called on. *)
Definition saved_or_same (m : Js unit) (w : World) : Prop :=
  completion m w = Normal tt
  /\ has_active_room (this (after m w))
  /\ _config (this (after m w)) = _config (this w)
  /\ (after m w = w
      \/ exists w1,
           localStorage w1 = localStorage w
           /\ _config (this w1) = _config (this w)
           /\ _rooms (this w1) = _rooms (this (after m w))
           /\ localStorage (after m w) = localStorage (after saveRoomConfig w1)).

(** The garden, with its rooms written to the store. *)
Definition synced_garden : World :=
  after saveRoomConfig garden_world.

(** The room that the card shows: [this._rooms[this._activeRoom]]. *)
Definition active_room_of (c : Card) : option Room :=
  match _rooms c with
  | RoomList rs => nth_Z rs (_activeRoom c)
  | _ => None
  end.

Definition five_rooms_middle_active : World :=
  {| this := {| _hass := Some home_hass; _config := default_config;
                _activeRoom := 2; _editMode := true; _modal := None;
                _modalData := None;
                _rooms := RoomList (getDefaultRooms dist_copy) |};
     localStorage := empty_store; console := []; service_calls := [];
     renders := 0 |}.

Definition media_call (entityId service : string) : ServiceCall :=
  {| call_domain := "media_player"; call_service := service;
     call_data := {| data_entity_id := entityId; data_hvac_mode := None;
                     data_temperature := None |} |}.

Definition media_services : list string :=
  ["media_play"; "media_pause"; "media_next_track"; "media_previous_track"].

(** A string without a dot. *)
Definition no_dot (s : string) : bool :=
  Str.all_chars (fun c => negb (Ascii.eqb c ".")) s.

(** The call that [toggleEntity] makes for a live identifier that the
    picker of [category] offers. *)
Definition toggle_call_of (category : Category) (entityId : string)
    (st : EntityState) : ServiceCall :=
  match category with
  | cat_climate =>
      hvac_mode_call entityId
        (if String.eqb (state st) "off" then "heat_cool" else "off")
  | _ => toggle_call entityId
  end.

(** * Properties *)

Module JsonFacts.
Import Json.

Lemma print_arr l : print (JArr l) = "["%char :: print_elements l ++ ["]"%char].
Proof. reflexivity. Qed.

Lemma print_obj m : print (JObj m) = "{"%char :: print_members m ++ ["}"%char].
Proof. reflexivity. Qed.

Lemma parse_chars_escape_char c t :
  parse_chars (escape_char c ++ t) =
  match parse_chars t with
  | Some (s, r) => Some (String c s, r)
  | None => None
  end.
Proof.
  destruct c as [[] [] [] [] [] [] [] []]; reflexivity.
Qed.

Lemma parse_chars_quote s rest :
  parse_chars (escape s ++ "034"%char :: rest) = Some (s, rest).
Proof.
  induction s as [|c s IH]; [reflexivity|].
  cbn [escape]. rewrite <- app_assoc, parse_chars_escape_char, IH. reflexivity.
Qed.

Lemma print_nonempty v : no_number v = true -> (1 <= List.length (print v))%nat.
Proof.
  destruct v as [| [] | | s | l | m]; cbn; try lia; try discriminate.
Qed.

Lemma parse_value_S n t :
  parse_value (S n) t =
  match skip_ws t with
  | [] => None
  | c :: r =>
      let k := Str.code c in
      if (k =? 110)%N then
        match strip_prefix (list_ascii_of_string "ull") r with
        | Some r' => Some (JNull, r') | None => None end
      else if (k =? 116)%N then
        match strip_prefix (list_ascii_of_string "rue") r with
        | Some r' => Some (JBool true, r') | None => None end
      else if (k =? 102)%N then
        match strip_prefix (list_ascii_of_string "alse") r with
        | Some r' => Some (JBool false, r') | None => None end
      else if (k =? 34)%N then
        match parse_chars r with
        | Some (s, r') => Some (JStr s, r') | None => None end
      else if (k =? 91)%N then
        match skip_ws r with
        | [] => None
        | c' :: r' =>
            if (Str.code c' =? 93)%N then Some (JArr [], r')
            else match parse_elements n (c' :: r') with
                 | Some (l, r'') => Some (JArr l, r'') | None => None end
        end
      else if (k =? 123)%N then
        match skip_ws r with
        | [] => None
        | c' :: r' =>
            if (Str.code c' =? 125)%N then Some (JObj [], r')
            else match parse_members n (c' :: r') with
                 | Some (m, r'') => Some (JObj m, r'') | None => None end
        end
      else parse_number (c :: r)
  end.
Proof. reflexivity. Qed.

Lemma print_opens v rest : no_number v = true -> opens (print v ++ rest).
Proof.
  destruct v as [| [] | | s | l | m]; cbn; try discriminate; auto.
Qed.

Lemma quote_opens k rest : opens (quote k ++ rest).
Proof. cbn. auto. Qed.

Lemma skip_ws_opens t : opens t -> skip_ws t = t.
Proof. destruct t as [|c r]; [easy|]. cbn. intros (-> & _). reflexivity. Qed.

Lemma skip_ws_comma t : skip_ws (","%char :: t) = ","%char :: t.
Proof. reflexivity. Qed.

Lemma parse_value_str n t :
  parse_value (S n) ("034"%char :: t) =
  match parse_chars t with
  | Some (s, r) => Some (JStr s, r)
  | None => None
  end.
Proof. reflexivity. Qed.

Lemma parse_value_arr n t :
  opens t ->
  parse_value (S n) ("["%char :: t) =
  match parse_elements n t with
  | Some (l, r) => Some (JArr l, r)
  | None => None
  end.
Proof.
  intros H. rewrite parse_value_S.
  change (skip_ws ("["%char :: t)) with ("["%char :: t).
  cbn -[parse_elements skip_ws].
  rewrite (skip_ws_opens _ H). destruct t as [|c r]; [easy|].
  destruct H as (_ & -> & _). reflexivity.
Qed.

Lemma parse_value_obj n t :
  opens t ->
  parse_value (S n) ("{"%char :: t) =
  match parse_members n t with
  | Some (m, r) => Some (JObj m, r)
  | None => None
  end.
Proof.
  intros H. rewrite parse_value_S.
  change (skip_ws ("{"%char :: t)) with ("{"%char :: t).
  cbn -[parse_members skip_ws].
  rewrite (skip_ws_opens _ H). destruct t as [|c r]; [easy|].
  destruct H as (_ & _ & ->). reflexivity.
Qed.

Lemma parse_elements_S n t :
  parse_elements (S n) t =
  match parse_value n t with
  | None => None
  | Some (v, r) =>
      match skip_ws r with
      | [] => None
      | c :: r' =>
          if (Str.code c =? 44)%N then
            match parse_elements n r' with
            | Some (l, r'') => Some (v :: l, r'') | None => None end
          else if (Str.code c =? 93)%N then Some ([v], r')
          else None
      end
  end.
Proof. reflexivity. Qed.

Lemma parse_members_S n r0 :
  parse_members (S n) ("034"%char :: r0) =
  match parse_chars r0 with
  | None => None
  | Some (key, r1) =>
      match skip_ws r1 with
      | [] => None
      | c1 :: r2 =>
          if negb (Str.code c1 =? 58)%N then None else
          match parse_value n r2 with
          | None => None
          | Some (v, r3) =>
              match skip_ws r3 with
              | [] => None
              | c :: r' =>
                  if (Str.code c =? 44)%N then
                    match parse_members n r' with
                    | Some (m, r'') => Some ((key, v) :: m, r'')
                    | None => None end
                  else if (Str.code c =? 125)%N then Some ([(key, v)], r')
                  else None
              end
          end
      end
  end.
Proof. reflexivity. Qed.

Lemma parse_members_quote n k t :
  parse_members (S n) (quote k ++ ":"%char :: t) =
  match parse_value n t with
  | None => None
  | Some (v, r3) =>
      match skip_ws r3 with
      | [] => None
      | c :: r' =>
          if (Str.code c =? 44)%N then
            match parse_members n r' with
            | Some (m, r'') => Some ((k, v) :: m, r'')
            | None => None end
          else if (Str.code c =? 125)%N then Some ([(k, v)], r')
          else None
      end
  end.
Proof.
  unfold quote. rewrite <- app_comm_cons, <- app_assoc. cbn [app].
  rewrite parse_members_S, parse_chars_quote. reflexivity.
Qed.

Lemma parse_print_fuel n :
  (forall v rest, no_number v = true -> (List.length (print v) <= n)%nat ->
     parse_value n (print v ++ rest) = Some (v, rest))
  /\ (forall l rest, l <> [] -> forallb no_number l = true ->
        (S (List.length (print_elements l)) <= n)%nat ->
        parse_elements n (print_elements l ++ "]"%char :: rest) = Some (l, rest))
  /\ (forall m rest, m <> [] ->
        forallb (fun kv => no_number (snd kv)) m = true ->
        (S (List.length (print_members m)) <= n)%nat ->
        parse_members n (print_members m ++ "}"%char :: rest) = Some (m, rest)).
Proof.
  induction n as [|n (IHv & IHl & IHm)].
  { split; [|split]; [|intros; lia..].
    intros v rest Hv Hn. pose proof (print_nonempty v Hv). lia. }
  split; [|split].
  - intros v rest Hv Hn. destruct v as [| [] | lit | s | l | m];
      try reflexivity; try discriminate.
    + change (print (JStr s) ++ rest)
        with ("034"%char :: ((escape s ++ ["034"%char]) ++ rest)).
      rewrite <- app_assoc. cbn [app].
      rewrite parse_value_str, parse_chars_quote. reflexivity.
    + rewrite print_arr in *. destruct l as [|v l]; [reflexivity|].
      rewrite <- app_comm_cons, <- app_assoc. cbn [app].
      rewrite parse_value_arr.
      * rewrite IHl; [reflexivity|discriminate|exact Hv|].
        cbn [List.length] in Hn. rewrite length_app in Hn. cbn [List.length] in Hn. lia.
      * cbn in Hv. apply andb_prop in Hv as [Hv _].
        destruct l; cbn [print_elements]; [|rewrite <- app_assoc];
          apply print_opens; exact Hv.
    + rewrite print_obj in *. destruct m as [|[k v] m]; [reflexivity|].
      rewrite <- app_comm_cons, <- app_assoc. cbn [app].
      rewrite parse_value_obj.
      * rewrite IHm; [reflexivity|discriminate|exact Hv|].
        cbn [List.length] in Hn. rewrite length_app in Hn. cbn [List.length] in Hn. lia.
      * destruct m as [|[? ?] ?]; cbn [print_members];
          rewrite <- app_assoc; apply quote_opens.
  - intros l rest Hne Hl Hn. rewrite parse_elements_S.
    destruct l as [|v l]; [congruence|].
    cbn [forallb] in Hl. apply andb_prop in Hl as [Hv Hl].
    destruct l as [|v' l].
    + cbn [print_elements] in *. rewrite IHv; [reflexivity|exact Hv|lia].
    + change (print_elements (v :: v' :: l))
        with (print v ++ ","%char :: print_elements (v' :: l)) in *.
      rewrite length_app in Hn. cbn [List.length] in Hn.
      rewrite <- app_assoc, <- app_comm_cons.
      pose proof (print_nonempty v Hv).
      rewrite IHv; [|exact Hv|lia].
      rewrite skip_ws_comma. cbv beta iota.
      change (Str.code ","%char =? 44)%N with true. cbv iota.
      rewrite IHl; [reflexivity|discriminate|exact Hl|lia].
  - intros m rest Hne Hm Hn.
    destruct m as [|[k v] m]; [congruence|].
    cbn [forallb snd] in Hm. apply andb_prop in Hm as [Hv Hm].
    pose proof (print_nonempty v Hv).
    destruct m as [|kv' m].
    + cbn [print_members] in *. rewrite <- app_assoc, <- app_comm_cons.
      rewrite parse_members_quote.
      rewrite length_app in Hn. cbn [List.length] in Hn.
      rewrite IHv; [reflexivity|exact Hv|lia].
    + change (print_members ((k, v) :: kv' :: m))
        with (quote k ++ ":"%char :: print v ++ ","%char :: print_members (kv' :: m)) in *.
      rewrite !length_app in Hn. cbn [List.length] in Hn.
      rewrite length_app in Hn. cbn [List.length] in Hn.
      rewrite <- app_assoc, <- app_comm_cons, <- app_assoc, <- app_comm_cons.
      rewrite parse_members_quote.
      rewrite IHv; [|exact Hv|lia].
      rewrite skip_ws_comma. cbv beta iota.
      change (Str.code ","%char =? 44)%N with true. cbv iota.
      rewrite IHm; [reflexivity|discriminate|exact Hm|lia].
Qed.

Theorem parse_stringify v : no_number v = true -> parse (stringify v) = Some v.
Proof.
  intros Hv. unfold parse, stringify.
  rewrite list_ascii_of_string_of_list_ascii.
  rewrite <- (app_nil_r (print v)) at 2.
  destruct (parse_print_fuel (S (List.length (print v)))) as (H & _).
  rewrite H; [reflexivity|exact Hv|lia].
Qed.
End JsonFacts.

Section RoomsAsJson.

Lemma as_strings_map l : as_strings (map Json.JStr l) = Some l.
Proof. induction l as [|s l IH]; [reflexivity|]. cbn. rewrite IH. reflexivity. Qed.

Lemma as_string_array_strings l : as_string_array (strings_to_json l) = Some l.
Proof. apply as_strings_map. Qed.

Lemma as_room_to_json r : as_room (room_to_json r) = Some r.
Proof.
  destruct r as [i n ic l c m se sw].
  destruct ic, l, c, m, se, sw;
    cbn -[as_string_array strings_to_json];
    rewrite ?as_string_array_strings; reflexivity.
Qed.

Lemma as_rooms_to_json rs : as_rooms (map room_to_json rs) = Some rs.
Proof.
  induction rs as [|r rs IH]; [reflexivity|].
  cbn [map as_rooms]. rewrite as_room_to_json, IH. reflexivity.
Qed.

Lemma rooms_of_json_to_json rs : rooms_of_json (rooms_to_json rs) = RoomList rs.
Proof. unfold rooms_of_json, rooms_to_json. rewrite as_rooms_to_json. reflexivity. Qed.

Lemma no_number_strings l : Json.no_number (strings_to_json l) = true.
Proof. cbn. induction l as [|s l IH]; [reflexivity|exact IH]. Qed.

Lemma no_number_room r : Json.no_number (room_to_json r) = true.
Proof.
  destruct r as [i n ic l c m se sw].
  destruct ic, l, c, m, se, sw;
    cbn -[strings_to_json];
    rewrite ?no_number_strings; reflexivity.
Qed.

Lemma no_number_rooms rs : Json.no_number (rooms_to_json rs) = true.
Proof.
  cbn. induction rs as [|r rs IH]; [reflexivity|].
  cbn [map forallb]. rewrite no_number_room. exact IH.
Qed.

Lemma parse_stringify_rooms rs :
  Json.parse (JSON_stringify (RoomList rs)) = Some (rooms_to_json rs).
Proof. apply JsonFacts.parse_stringify, no_number_rooms. Qed.

End RoomsAsJson.

(** * The card's methods *)

Section Steps.

Lemma bind_normal {A B} (m : Js A) (k : A -> Js B) w a w' :
  m w = (Normal a, w') -> bind m k w = k a w'.
Proof. unfold bind. intros ->. reflexivity. Qed.

(** What [saveRoomConfig] can change: the store and the console. *)
Lemma saveRoomConfig_effect w :
  exists st con,
    saveRoomConfig w =
    (Normal tt,
     {| this := this w; localStorage := st; console := con;
        service_calls := service_calls w; renders := renders w |}).
Proof.
  destruct w as [c st con calls n].
  unfold saveRoomConfig, try_catch, bind, read_this, localStorage_setItem,
    console_error. cbn.
  destruct (Storage.setItem _ _ st) as [st'|e]; cbn; eauto.
Qed.

Lemma saveRoomConfig_written w st' :
  Storage.setItem (storage_key (_config (this w))) (JSON_stringify (_rooms (this w)))
    (localStorage w) = Normal st' ->
  saveRoomConfig w =
  (Normal tt,
   {| this := this w; localStorage := st'; console := console w;
      service_calls := service_calls w; renders := renders w |}).
Proof.
  destruct w as [c st con calls n]. cbn. intros H.
  unfold saveRoomConfig, try_catch, bind, read_this, localStorage_setItem.
  cbn. rewrite H. reflexivity.
Qed.

End Steps.

(** C5: [saveRoomConfig] completes normally from every world, also when
    the write fails, and leaves every field of the card, the room list
    among them, as it was. *)
Theorem saveRoomConfig_swallows_failure w :
  completion saveRoomConfig w = Normal tt
  /\ this (after saveRoomConfig w) = this w
  /\ _rooms (this (after saveRoomConfig w)) = _rooms (this w).
Proof.
  unfold completion, after.
  destruct (saveRoomConfig_effect w) as (st & con & ->). cbn. auto.
Qed.

(** A write that fails leaves the store as it was and is logged. *)
Lemma saveRoomConfig_failed w e :
  Storage.setItem (storage_key (_config (this w))) (JSON_stringify (_rooms (this w)))
    (localStorage w) = Throw e ->
  localStorage (after saveRoomConfig w) = localStorage w
  /\ console (after saveRoomConfig w) =
     console w ++ ["Glassmorphism Dashboard: Error saving room config:"].
Proof.
  destruct w as [c st con calls n]. cbn. intros H.
  unfold after, saveRoomConfig, try_catch, bind, read_this, localStorage_setItem,
    console_error.
  cbn. rewrite H. cbn. auto.
Qed.

Section Load.

Variable copy : Copy.

Lemma loadRoomConfig_never_throws w :
  completion (loadRoomConfig copy) w = Normal tt.
Proof.
  destruct w as [c st con calls n].
  unfold completion, loadRoomConfig, try_catch, bind, read_this,
    localStorage_getItem, Storage.getItem. cbn.
  destruct (Storage.accessible st); cbn; [|reflexivity].
  destruct (Storage.items st !! storage_key (_config c)) as [s|] eqn:E; cbn.
  - destruct (Str.truthy s); cbn.
    + unfold JSON_parse. destruct (Json.parse s); reflexivity.
    + match goal with |- context [saveRoomConfig ?w] =>
        destruct (saveRoomConfig_effect w) as (st' & con' & ->) end.
      reflexivity.
  - match goal with |- context [saveRoomConfig ?w] =>
      destruct (saveRoomConfig_effect w) as (st' & con' & ->) end.
    reflexivity.
Qed.

(** No blob under the key: the defaults are set and written. *)
Lemma loadRoomConfig_missing w st' :
  Storage.accessible (localStorage w) = true ->
  Storage.items (localStorage w) !! storage_key (_config (this w)) = None ->
  Storage.setItem (storage_key (_config (this w)))
    (JSON_stringify (RoomList (getDefaultRooms copy))) (localStorage w) = Normal st' ->
  _rooms (this (after (loadRoomConfig copy) w)) = RoomList (getDefaultRooms copy)
  /\ localStorage (after (loadRoomConfig copy) w) = st'.
Proof.
  destruct w as [c st con calls n]. cbn. intros Ha Hk Hs.
  unfold after, loadRoomConfig, try_catch, bind at 1, read_this. cbn.
  unfold bind at 1, localStorage_getItem, Storage.getItem. cbn.
  rewrite Ha, Hk. cbn.
  unfold set_rooms, bind, read_this, write_this. cbn.
  match goal with |- context [saveRoomConfig ?w] =>
    rewrite (saveRoomConfig_written w st') by exact Hs end.
  cbn. auto.
Qed.

(** A blob that [JSON.parse] rejects: the defaults are set, the error is
    logged, and the store is left as it was. *)
Lemma loadRoomConfig_malformed w s :
  Storage.accessible (localStorage w) = true ->
  Storage.items (localStorage w) !! storage_key (_config (this w)) = Some s ->
  Str.truthy s = true ->
  Json.parse s = None ->
  _rooms (this (after (loadRoomConfig copy) w)) = RoomList (getDefaultRooms copy)
  /\ localStorage (after (loadRoomConfig copy) w) = localStorage w
  /\ console (after (loadRoomConfig copy) w) =
     console w ++ ["Glassmorphism Dashboard: Error loading room config:"].
Proof.
  destruct w as [c st con calls n]. cbn. intros Ha Hk Ht Hp.
  unfold after, loadRoomConfig, try_catch, bind at 1, read_this. cbn.
  unfold bind at 1, localStorage_getItem, Storage.getItem. cbn.
  rewrite Ha, Hk, Ht. cbn.
  unfold JSON_parse. rewrite Hp. cbn. auto.
Qed.

(** A blob that is the serialization of a room list. *)
Lemma loadRoomConfig_stored w rs :
  Storage.accessible (localStorage w) = true ->
  Storage.items (localStorage w) !! storage_key (_config (this w))
    = Some (JSON_stringify (RoomList rs)) ->
  _rooms (this (after (loadRoomConfig copy) w)) = RoomList rs.
Proof.
  destruct w as [c st con calls n]. cbn [this localStorage]. intros Ha Hk.
  unfold after, loadRoomConfig, try_catch, bind at 1, read_this. cbn.
  unfold bind at 1, localStorage_getItem, Storage.getItem. cbn.
  rewrite Ha, Hk.
  change (Str.truthy (JSON_stringify (RoomList rs))) with true. cbv iota.
  unfold JSON_parse. rewrite parse_stringify_rooms.
  unfold bind, ret, set_rooms, bind, read_this, write_this.
  cbn [this _rooms fst snd]. rewrite rooms_of_json_to_json. reflexivity.
Qed.

End Load.

(** C3: on a store whose blob under the key is the text of one opening
    brace, which [JSON.parse] rejects, [loadRoomConfig] completes normally
    and sets the default rooms, but the store still holds the malformed
    blob: the defaults are not written. *)
Theorem loadRoomConfig_malformed_not_persisted :
  let w := opened default_config malformed_store in
  let w' := after (loadRoomConfig dist_copy) w in
  Json.parse "{" = None
  /\ completion (loadRoomConfig dist_copy) w = Normal tt
  /\ _rooms (this w') = RoomList (getDefaultRooms dist_copy)
  /\ localStorage w' = malformed_store
  /\ Storage.items (localStorage w') !! default_storage_key
     <> Some (JSON_stringify (RoomList (getDefaultRooms dist_copy))).
Proof.
  cbv zeta.
  assert (Hp : Json.parse "{" = None) by reflexivity.
  destruct (loadRoomConfig_malformed dist_copy
              (opened default_config malformed_store) "{") as (Hr & Hs & _);
    try reflexivity.
  split; [exact Hp|]. split; [apply loadRoomConfig_never_throws|].
  split; [exact Hr|]. split; [exact Hs|].
  rewrite Hs. unfold opened, malformed_store. cbn [localStorage Storage.items].
  rewrite lookup_singleton_eq. intros [=].
Qed.

(** C2: when the write of [saveRoomConfig] succeeds, a card opened
    afterwards on the same store with the same configuration loads the
    very room list that was saved. *)
Theorem save_then_load_round_trip (copy : Copy) (w : World) (rs : list Room) :
  _rooms (this w) = RoomList rs ->
  is_normal (Storage.setItem (storage_key (_config (this w)))
               (JSON_stringify (RoomList rs)) (localStorage w)) = true ->
  let saved := after saveRoomConfig w in
  let fresh := opened (_config (this w)) (localStorage saved) in
  completion (loadRoomConfig copy) fresh = Normal tt
  /\ _rooms (this (after (loadRoomConfig copy) fresh)) = RoomList rs.
Proof.
  intros Hrs Hw saved fresh.
  split; [apply loadRoomConfig_never_throws|].
  destruct (Storage.setItem (storage_key (_config (this w)))
              (JSON_stringify (RoomList rs)) (localStorage w)) as [st'|e] eqn:Hset;
    [clear Hw|discriminate].
  assert (Hsaved : localStorage saved = st').
  { subst saved. unfold after.
    rewrite (saveRoomConfig_written w st'); [reflexivity|].
    rewrite Hrs. exact Hset. }
  unfold Storage.setItem in Hset.
  destruct (Storage.accessible (localStorage w)) eqn:Ha; [|discriminate].
  cbn [negb] in Hset.
  destruct (_ <=? _)%nat; [|discriminate].
  injection Hset as <-.
  apply loadRoomConfig_stored; subst fresh; unfold opened;
    cbn [this localStorage configured _config]; rewrite Hsaved;
    cbn [Storage.accessible Storage.items]; [reflexivity|].
  apply lookup_insert_eq.
Qed.

Lemma save_then_load_round_trip_witness :
  _rooms (this (after (loadRoomConfig dist_copy)
                  (opened default_config
                     (localStorage (after saveRoomConfig garden_world)))))
  = RoomList [garden].
Proof.
  apply (save_then_load_round_trip dist_copy garden_world [garden]).
  - reflexivity.
  - vm_compute. reflexivity.
Defined.

(** Every bucket of the room is present and empty. *)
Lemma empty_room_buckets i n ic category :
  bucket (empty_room i n ic) category = Some [].
Proof. destruct category; reflexivity. Qed.

(** C9 (as amended): the default rooms of the copy under [dist/] are
    exactly 5, those of the root copy are exactly 3, and in both copies
    each of the five buckets of every default room is present and empty. *)
Theorem default_rooms_by_copy :
  List.length (getDefaultRooms dist_copy) = 5%nat
  /\ List.length (getDefaultRooms root_copy) = 3%nat
  /\ forall copy category,
       List.Forall (fun room => bucket room category = Some [])
         (getDefaultRooms copy).
Proof.
  split; [reflexivity|]. split; [reflexivity|].
  intros [] category; repeat constructor; apply empty_room_buckets.
Qed.

(** C9, the claim as stated fails on the root copy: its default rooms are
    3, not 5. *)
Lemma default_rooms_root_copy_three :
  getDefaultRooms root_copy
  = [ empty_room "woonkamer" "Woonkamer" (Some "mdi:sofa");
      empty_room "slaapkamer" "Slaapkamer" (Some "mdi:bed");
      empty_room "keuken" "Keuken" (Some "mdi:silverware-fork-knife") ]
  /\ List.length (getDefaultRooms root_copy) <> 5%nat.
Proof. split; [reflexivity|discriminate]. Qed.

Section RoomSteps.

Lemma rooms_array_list w rs :
  _rooms (this w) = RoomList rs -> rooms_array w = (Normal rs, w).
Proof. unfold rooms_array, bind, read_this. intros ->. reflexivity. Qed.

Lemma active_room_found w rs room :
  _rooms (this w) = RoomList rs ->
  nth_Z rs (_activeRoom (this w)) = Some room ->
  active_room w = (Normal (rs, room), w).
Proof. unfold active_room, bind, read_this. intros -> ->. reflexivity. Qed.

Lemma render_effect w rs room :
  _rooms (this w) = RoomList rs ->
  nth_Z rs (_activeRoom (this w)) = Some room ->
  exists n,
    render w =
    (Normal tt,
     {| this := this w; localStorage := localStorage w; console := console w;
        service_calls := service_calls w; renders := n |}).
Proof.
  intros Hrs Hroom. unfold render.
  rewrite (bind_normal read_this _ w (this w) w eq_refl).
  destruct (_hass (this w)).
  - rewrite Hrs.
    rewrite (bind_normal _ _ _ (rs, room) _ (active_room_found w rs room Hrs Hroom)).
    eauto.
  - destruct w. eauto.
Qed.

Lemma nth_Z_in_range {A} (l : list A) i :
  0 <= i < Z.of_nat (List.length l) -> exists x, nth_Z l i = Some x.
Proof.
  intros H. unfold nth_Z. destruct (Z.ltb_spec i 0); [lia|].
  apply lookup_lt_is_Some_2. lia.
Qed.

Lemma splice1_delete {A} (l : list A) index :
  0 <= index < Z.of_nat (List.length l) ->
  splice1 l index = delete (Z.to_nat index) l.
Proof.
  intros H. unfold splice1. destruct (Z.ltb_spec index 0); [lia|].
  rewrite Z.min_l by lia. symmetry. apply delete_take_drop.
Qed.

Lemma splice1_length {A} (l : list A) index :
  0 <= index < Z.of_nat (List.length l) ->
  Z.of_nat (List.length (splice1 l index)) = Z.of_nat (List.length l) - 1.
Proof.
  intros H. rewrite splice1_delete by exact H.
  rewrite length_delete; [lia|]. apply lookup_lt_is_Some_2. lia.
Qed.

End RoomSteps.

Ltac save_step :=
  match goal with
  | |- context [saveRoomConfig ?w] =>
      let st := fresh "st" in
      let con := fresh "con" in
      let E := fresh "Esave" in
      destruct (saveRoomConfig_effect w) as (st & con & E);
      rewrite E; clear E; cbn [this localStorage console service_calls renders]
  end.

Ltac render_step rs room :=
  match goal with
  | |- context [render ?w] =>
      let n := fresh "n" in
      let E := fresh "Erender" in
      destruct (render_effect w rs room) as (n & E);
      [ try reflexivity | | rewrite E; clear E;
        cbn [this localStorage console service_calls renders] ]
  end.

(** C4: with exactly one room, [removeRoom] completes and leaves the
    world, so the room list and the active index, as it was.  With more
    rooms, a valid [index] and a valid active index, it deletes the room
    at [index]; an active index that then points past the end becomes the
    new last index, any other stays; so removing the last room while it is
    active makes the new last room active. *)
Theorem removeRoom_refuses_last_and_clamps (w : World) (rs : list Room) (index : Z) :
  _rooms (this w) = RoomList rs ->
  let n := Z.of_nat (List.length rs) in
  let a := _activeRoom (this w) in
  let w' := after (removeRoom index) w in
  (n = 1 -> completion (removeRoom index) w = Normal tt /\ w' = w)
  /\ (1 < n -> 0 <= index < n -> 0 <= a < n ->
      completion (removeRoom index) w = Normal tt
      /\ _rooms (this w') = RoomList (delete (Z.to_nat index) rs)
      /\ _activeRoom (this w') = (if a >=? n - 1 then n - 2 else a)
      /\ (index = a -> a = n - 1 -> _activeRoom (this w') = n - 2)
      /\ 0 <= _activeRoom (this w') < n - 1).
Proof.
  intros Hrs n a w'. subst w'. unfold completion, after, removeRoom.
  rewrite (bind_normal _ _ _ rs w (rooms_array_list w rs Hrs)).
  fold n. split.
  - intros ->. cbn. auto.
  - intros Hn Hi Ha.
    destruct (Z.gtb_spec n 1) as [_|]; [|lia].
    pose proof (splice1_length rs index Hi) as Hlen. fold n in Hlen.
    destruct w as [c st con calls k]. destruct c as [h cfg a0 em mo md r].
    cbn in Hrs, a. subst r a.
    cbv beta iota delta
      [bind set_rooms set_activeRoom rooms_array read_this write_this ret
       world_with_this card_with_rooms card_with_activeRoom
       this _rooms _hass _config _activeRoom _editMode _modal _modalData
       localStorage console service_calls renders].
    rewrite Hlen.
    assert (Hin : exists room, nth_Z (splice1 rs index)
                    (if a0 >=? n - 1 then n - 1 - 1 else a0) = Some room).
    { apply nth_Z_in_range. rewrite Hlen. destruct (Z.geb_spec a0 (n - 1)); lia. }
    destruct Hin as (room & Hroom).
    destruct (Z.geb_spec a0 (n - 1)) as [Hge|Hlt];
      cbv beta iota;
      save_step; render_step (splice1 rs index) room; try exact Hroom;
      cbn [fst snd this _rooms _activeRoom];
      rewrite (splice1_delete rs index Hi);
      repeat split; try reflexivity; try lia.
Qed.

Lemma removeRoom_refuses_last_and_clamps_witness :
  after (removeRoom 0) garden_world = garden_world
  /\ _activeRoom (this (after (removeRoom 4) five_rooms_last_active)) = 3.
Proof.
  split.
  - destruct (removeRoom_refuses_last_and_clamps garden_world [garden] 0 eq_refl)
      as [H _].
    apply H. reflexivity.
  - destruct (removeRoom_refuses_last_and_clamps five_rooms_last_active
                (getDefaultRooms dist_copy) 4 eq_refl) as [_ H].
    destruct H as (_ & _ & _ & H & _); [cbn; lia ..|].
    apply H; reflexivity.
Defined.

Section Slug.

Lemma strip_non_slug_chars s :
  Str.all_chars Str.is_slug_char (Str.strip_non_slug s) = true.
Proof.
  induction s as [|c s IH]; [reflexivity|].
  cbn [Str.strip_non_slug]. destruct (Str.is_slug_char c) eqn:E; [|exact IH].
  cbn [Str.all_chars]. rewrite E, IH. reflexivity.
Qed.

Lemma slug_chars name : Str.all_chars Str.is_slug_char (slug name) = true.
Proof. apply strip_non_slug_chars. Qed.

(** The tables of the specification are the classes of the source. *)
Lemma lower_char_lowercased c : Str.lower_char c = lowercased c.
Proof. destruct c as [[] [] [] [] [] [] [] []]; reflexivity. Qed.

Lemma is_white_white_space c : Str.is_white c = one_of white_space c.
Proof. destruct c as [[] [] [] [] [] [] [] []]; reflexivity. Qed.

Lemma is_slug_char_alphabet c : Str.is_slug_char c = one_of identifier_alphabet c.
Proof. destruct c as [[] [] [] [] [] [] [] []]; reflexivity. Qed.

Lemma toLowerCase_spec s :
  list_ascii_of_string (Str.toLowerCase s) = map lowercased (list_ascii_of_string s).
Proof.
  induction s as [|c s IH]; [reflexivity|].
  cbn [Str.toLowerCase list_ascii_of_string map].
  rewrite lower_char_lowercased, IH. reflexivity.
Qed.

Lemma strip_non_slug_spec s :
  list_ascii_of_string (Str.strip_non_slug s)
  = List.filter (one_of identifier_alphabet) (list_ascii_of_string s).
Proof.
  induction s as [|c s IH]; [reflexivity|].
  cbn [Str.strip_non_slug list_ascii_of_string List.filter].
  rewrite <- is_slug_char_alphabet.
  destruct (Str.is_slug_char c); cbn [list_ascii_of_string]; rewrite IH; reflexivity.
Qed.

(** Inside a run, the underscore of the run is the one of its last
    character. *)
Lemma replace_white_runs_in_run s :
  String "_" (Str.replace_white_runs true s)
  = match s with
    | String c _ =>
        if Str.is_white c then Str.replace_white_runs false s
        else String "_" (Str.replace_white_runs false s)
    | EmptyString => String "_" (Str.replace_white_runs false s)
    end.
Proof.
  destruct s as [|c r]; [reflexivity|].
  cbn [Str.replace_white_runs]. destruct (Str.is_white c); reflexivity.
Qed.

Lemma replace_white_runs_spec s :
  list_ascii_of_string (Str.replace_white_runs false s)
  = map piece_text (collapse_gaps (map piece_of (list_ascii_of_string s))).
Proof.
  induction s as [|c s IH]; [reflexivity|].
  cbn [Str.replace_white_runs list_ascii_of_string map].
  unfold piece_of at 1. rewrite <- is_white_white_space.
  destruct (Str.is_white c) eqn:Ec.
  - rewrite replace_white_runs_in_run.
    destruct s as [|c' s'].
    + reflexivity.
    + cbn [list_ascii_of_string map] in IH |- *.
      unfold piece_of at 1. unfold piece_of at 1 in IH.
      rewrite <- is_white_white_space in IH |- *.
      destruct (Str.is_white c') eqn:Ec'.
      * cbn [collapse_gaps]. exact IH.
      * cbn [collapse_gaps map piece_text list_ascii_of_string] in IH |- *.
        rewrite IH. reflexivity.
  - cbn [collapse_gaps map piece_text list_ascii_of_string]. rewrite IH. reflexivity.
Qed.

(** [slug] is the derivation of the specification. *)
Lemma slug_refines name : slug name = slug_spec name.
Proof.
  unfold slug, slug_spec.
  rewrite <- toLowerCase_spec, <- replace_white_runs_spec, <- strip_non_slug_spec.
  symmetry. apply string_of_list_ascii_of_string.
Qed.

Lemma slug_spec_alphabet name :
  Forall (fun c => In c identifier_alphabet) (list_ascii_of_string (slug_spec name)).
Proof.
  unfold slug_spec. rewrite list_ascii_of_string_of_list_ascii.
  apply List.Forall_forall. intros c Hc. apply filter_In in Hc as [_ Hc].
  unfold one_of in Hc. apply existsb_exists in Hc as (x & Hx & E).
  apply Ascii.eqb_eq in E. subst. exact Hx.
Qed.

End Slug.

(** C6: on a card that holds a room list, [addRoom] appends one room at
    the end.  Its identifier is the one that the specification derives
    from the name, [slug_spec]: the name in lower case, with each run of
    white space collapsed to one underscore and every character outside
    a-z, 0-9 and underscore stripped, so that it is a text of that
    alphabet; its name is the name given; its five buckets are present and
    empty; and it is the active room afterwards.  On a card without a host
    object, where nothing is drawn, the method completes.  The name
    "Garden Room!" gives the identifier "garden_room"; a run of a space, a
    tab and a space gives one underscore, and white space at the two ends
    of the name one underscore each. *)
Theorem addRoom_appends_slugged_room (copy : Copy) (w : World) (rs : list Room)
    (title : string) :
  _rooms (this w) = RoomList rs ->
  let w' := after (addRoom copy title) w in
  let room := empty_room (slug_spec title) title (new_room_icon copy) in
  (_hass (this w) = None -> completion (addRoom copy title) w = Normal tt)
  /\ _rooms (this w') = RoomList (rs ++ [room])
  /\ slug title = slug_spec title
  /\ Forall (fun c => In c identifier_alphabet) (list_ascii_of_string (id room))
  /\ name room = title
  /\ (forall category, bucket room category = Some [])
  /\ _activeRoom (this w') = Z.of_nat (List.length rs)
  /\ nth_Z (rs ++ [room]) (_activeRoom (this w')) = Some room
  /\ (slug "Garden Room!" = "garden_room"
      /\ slug (String.append "Wine " (String "009" " Cellar 2")) = "wine_cellar_2"
      /\ slug "  Attic  " = "_attic_"
      /\ slug "A_ b-C" = "a__bc").
Proof.
  intros Hrs w' room.
  assert (Hnth : nth_Z (rs ++ [room]) (Z.of_nat (List.length rs)) = Some room).
  { unfold nth_Z. destruct (Z.ltb_spec (Z.of_nat (List.length rs)) 0); [lia|].
    rewrite Nat2Z.id. apply list_lookup_middle. reflexivity. }
  assert (Hrun : completion (addRoom copy title) w = Normal tt
                 /\ _rooms (this w') = RoomList (rs ++ [room])
                 /\ _activeRoom (this w') = Z.of_nat (List.length rs)).
  { subst w'. unfold completion, after, addRoom.
    rewrite (bind_normal _ _ _ rs w (rooms_array_list w rs Hrs)).
    rewrite (slug_refines title). fold room.
    destruct w as [c st con calls k]. destruct c as [h cfg a0 em mo md r].
    cbn in Hrs. subst r.
    cbv beta iota delta
      [bind set_rooms read_this write_this ret
       world_with_this card_with_rooms card_with_activeRoom
       this _rooms _hass _config _activeRoom _editMode _modal _modalData
       localStorage console service_calls renders].
    save_step.
    cbv beta iota delta
      [bind set_activeRoom rooms_array read_this write_this ret
       world_with_this card_with_rooms card_with_activeRoom
       this _rooms _hass _config _activeRoom _editMode _modal _modalData
       localStorage console service_calls renders].
    replace (Z.of_nat (List.length (rs ++ [room])) - 1)
      with (Z.of_nat (List.length rs))
      by (rewrite length_app; cbn [List.length]; lia).
    render_step (rs ++ [room]) room; [exact Hnth|].
    cbn [fst snd this _rooms _activeRoom]. auto. }
  destruct Hrun as (Hc & Hr & Ha).
  split; [intros _; exact Hc|]. split; [exact Hr|]. split; [apply slug_refines|].
  split; [apply slug_spec_alphabet|]. split; [reflexivity|].
  split; [intros []; reflexivity|]. split; [exact Ha|].
  split; [rewrite Ha; exact Hnth|]. repeat split; reflexivity.
Qed.

Lemma addRoom_appends_slugged_room_witness :
  _rooms (this (after (addRoom root_copy "Garden Room!") garden_world))
  = RoomList [garden; empty_room "garden_room" "Garden Room!" (Some "mdi:home")]
  /\ _activeRoom (this (after (addRoom root_copy "Garden Room!") garden_world)) = 1.
Proof.
  destruct (addRoom_appends_slugged_room root_copy garden_world [garden]
              "Garden Room!" eq_refl) as (_ & Hr & _ & _ & _ & _ & Ha & _).
  split; [exact Hr|exact Ha].
Defined.

Section Commands.

Lemma getState_looked_up w entityId :
  getState entityId w = (Normal (looked_up (this w) entityId), w).
Proof. reflexivity. Qed.

Lemma callService_with_hass w h domain service data :
  _hass (this w) = Some h ->
  callService domain service data w =
  (Normal tt,
   world_with_calls w (service_calls w ++
                 [{| call_domain := domain; call_service := service;
                     call_data := data |}])).
Proof. unfold callService, bind, read_this. intros ->. reflexivity. Qed.

Lemma resolved_has_hass c entityId st :
  resolved c entityId = Some st -> exists h, _hass c = Some h.
Proof. unfold resolved. destruct (_hass c); [eauto|discriminate]. Qed.

Lemma looked_up_has_hass c entityId v :
  looked_up c entityId = Some v -> exists h, _hass c = Some h.
Proof. unfold looked_up. destruct (_hass c); [eauto|discriminate]. Qed.

(** A live state is what [getState] finds. *)
Lemma looked_up_live c entityId st :
  resolved c entityId = Some st -> looked_up c entityId = Some (live_state st).
Proof.
  unfold resolved, looked_up, state_lookup. destruct (_hass c); [|discriminate].
  intros ->. reflexivity.
Qed.

Lemma inherited_name_In entityId :
  existsb (String.eqb entityId) object_prototype_names = true
  <-> In entityId object_prototype_names.
Proof.
  rewrite existsb_exists. split.
  - intros (x & Hx & E). apply String.eqb_eq in E. subst. exact Hx.
  - intros H. exists entityId. split; [exact H|apply String.eqb_refl].
Qed.


(** [getState] finds nothing exactly when there is no host object, or the
    host has no state under the name and the name is not inherited. *)
Lemma looked_up_None c entityId :
  looked_up c entityId = None
  <-> resolved c entityId = None
      /\ (_hass c = None \/ ~ In entityId object_prototype_names).
Proof.
  unfold resolved, looked_up, state_lookup. destruct (_hass c) as [h|].
  - destruct (states h !! entityId).
    + split; [discriminate|intros [[=] _]].
    + rewrite <- inherited_name_In.
      destruct (existsb (String.eqb entityId) object_prototype_names).
      * split; [discriminate|]. intros [_ [[=]|H]]. exfalso. apply H. reflexivity.
      * split; [|reflexivity]. intros _. split; [reflexivity|]. right. discriminate.
  - split; [|reflexivity]. intros _. split; [reflexivity|]. left. reflexivity.
Qed.


(** What [toggleEntity] does with a value that [getState] has found. *)
Lemma toggleEntity_found w h entityId v :
  _hass (this w) = Some h ->
  looked_up (this w) entityId = Some v ->
  toggleEntity entityId w =
  (Normal tt,
   world_with_calls w
     (service_calls w ++
        [if String.eqb (Str.before_dot entityId) "climate"
         then hvac_mode_call entityId
                match value_state v with
                | Some s => if String.eqb s "off" then "heat_cool" else "off"
                | None => "off"
                end
         else toggle_call entityId])).
Proof.
  intros Hh Hv. unfold toggleEntity.
  rewrite (bind_normal _ _ _ _ _ (getState_looked_up w entityId)), Hv.
  destruct (String.eqb (Str.before_dot entityId) "climate");
    rewrite (callService_with_hass w h _ _ _ Hh); reflexivity.
Qed.

Lemma toggleEntity_not_found w entityId :
  looked_up (this w) entityId = None -> toggleEntity entityId w = (Normal tt, w).
Proof.
  intros Hv. unfold toggleEntity.
  rewrite (bind_normal _ _ _ _ _ (getState_looked_up w entityId)), Hv. reflexivity.
Qed.

End Commands.


(** The four cases on live identifiers of [home], and an identifier that
    has no state there. *)
Example toggleEntity_at_home :
  service_calls (after (toggleEntity "climate.living") home)
    = [hvac_mode_call "climate.living" "heat_cool"]
  /\ service_calls (after (toggleEntity "climate.hall") home)
    = [hvac_mode_call "climate.hall" "off"]
  /\ service_calls (after (toggleEntity "light.desk") home)
    = [toggle_call "light.desk"]
  /\ after (toggleEntity "switch.unknown") home = home.
Proof. repeat split; reflexivity. Qed.

(** The tiles of [home]: the identifier without a state has none. *)
Example home_climate_tiles :
  climate_tiles (this home) =
  [ renderClimateDevice (entity "climate.living" "off" (Some 21%float));
    renderClimateDevice (entity "climate.cellar" "cool" (Some 0%float)) ].
Proof. reflexivity. Qed.

(** A reported target of 21: the buttons carry 20.5 and 21.5. *)
Example temperature_step_from_21 :
  let tile := renderClimateDevice (entity "climate.living" "off" (Some 21%float)) in
  service_calls (after (click_temp_btn (plus_btn tile)) home)
    = [set_temperature_call "climate.living" 21.5%float]
  /\ service_calls (after (click_temp_btn (minus_btn tile)) home)
    = [set_temperature_call "climate.living" 20.5%float].
Proof. split; reflexivity. Qed.

(** A target that is unset: the buttons step from 20. *)
Lemma targetTemp_unset i s : targetTemp (entity i s None) = 20%float.
Proof. reflexivity. Qed.

(** A target that [||] takes as true is the one stepped from. *)
Lemma targetTemp_truthy i s t :
  number_truthy t = true -> targetTemp (entity i s (Some t)) = t.
Proof. unfold targetTemp. cbn. intros ->. reflexivity. Qed.

(** C8: a reported target of 0 is a number that [||] takes as false.  The
    tile steps from 20: its increment button issues 20.5 and its decrement
    button 19.5, where the reported target plus and minus 0.5 is 0.5 and
    -0.5. *)
Theorem temperature_step_from_zero_target :
  let cellar := entity "climate.cellar" "cool" (Some 0%float) in
  let tile := renderClimateDevice cellar in
  resolved (this home) "climate.cellar" = Some cellar
  /\ In tile (climate_tiles (this home))
  /\ service_calls (after (click_temp_btn (plus_btn tile)) home)
     = [set_temperature_call "climate.cellar" 20.5%float]
  /\ service_calls (after (click_temp_btn (minus_btn tile)) home)
     = [set_temperature_call "climate.cellar" 19.5%float]
  /\ PrimFloat.add 0%float 0.5%float = 0.5%float
  /\ PrimFloat.eqb (data_temp (plus_btn tile)) (PrimFloat.add 0%float 0.5%float) = false.
Proof.
  cbv zeta. split; [reflexivity|]. split; [right; left; reflexivity|].
  repeat split; reflexivity.
Qed.

Section Buckets.

Lemma bucket_set_bucket r c b : bucket (set_bucket r c b) c = Some b.
Proof. destruct c; reflexivity. Qed.

Lemma nth_Z_insert {A} (l : list A) a x :
  0 <= a < Z.of_nat (List.length l) ->
  nth_Z (<[Z.to_nat a := x]> l) a = Some x.
Proof.
  intros H. unfold nth_Z. destruct (Z.ltb_spec a 0); [lia|].
  apply list_lookup_insert_eq. lia.
Qed.

Lemma update_active_room_run w rs r :
  _rooms (this w) = RoomList rs ->
  update_active_room r w =
  (Normal tt,
   world_with_this w
     (card_with_rooms (this w)
        (RoomList (<[Z.to_nat (_activeRoom (this w)) := r]> rs)))).
Proof.
  intros Hrs. unfold update_active_room, bind, read_this. rewrite Hrs.
  reflexivity.
Qed.

Lemma includes_In x b : includes x b = true <-> In x b.
Proof.
  unfold includes. rewrite existsb_exists. split.
  - intros (y & Hy & E). apply String.eqb_eq in E. subst. exact Hy.
  - intros H. exists x. split; [exact H|apply String.eqb_refl].
Qed.

Lemma includes_not_In x b : includes x b = false <-> ~ In x b.
Proof.
  rewrite <- includes_In. destruct (includes x b); split; congruence.
Qed.

(** The world after the writes of a bucket, a save and a render. *)
Lemma write_save_render w rs room category b :
  _rooms (this w) = RoomList rs ->
  0 <= _activeRoom (this w) < Z.of_nat (List.length rs) ->
  exists w1,
    (update_active_room (set_bucket room category b) ;; saveRoomConfig ;; render) w
    = (Normal tt, w1)
    /\ has_active_room (this w1)
    /\ _activeRoom (this w1) = _activeRoom (this w)
    /\ active_bucket (this w1) category = Some b
    /\ service_calls w1 = service_calls w.
Proof.
  intros Hrs Ha.
  rewrite (bind_normal _ _ _ _ _ (update_active_room_run w rs _ Hrs)).
  set (rs1 := <[Z.to_nat (_activeRoom (this w)) := set_bucket room category b]> rs).
  set (w1 := world_with_this w (card_with_rooms (this w) (RoomList rs1))).
  destruct (saveRoomConfig_effect w1) as (st & con & Es).
  rewrite (bind_normal _ _ _ _ _ Es).
  match goal with |- context [render ?w2] =>
    destruct (render_effect w2 rs1 (set_bucket room category b)) as (n & Er) end.
  { reflexivity. }
  { apply nth_Z_insert. exact Ha. }
  rewrite Er. eexists. split; [reflexivity|].
  cbn [this service_calls]. unfold w1.
  cbn [this world_with_this card_with_rooms _rooms _activeRoom service_calls].
  split; [|split; [reflexivity|split; [|reflexivity]]].
  - exists rs1. split; [reflexivity|]. unfold rs1. rewrite length_insert. exact Ha.
  - unfold active_bucket. cbn [card_with_rooms _rooms _activeRoom]. unfold rs1.
    rewrite nth_Z_insert by exact Ha. apply bucket_set_bucket.
Qed.

Lemma addEntityToRoom_run w category e :
  has_active_room (this w) ->
  exists w1,
    addEntityToRoom e category w = (Normal tt, w1)
    /\ has_active_room (this w1)
    /\ _activeRoom (this w1) = _activeRoom (this w)
    /\ active_bucket (this w1) category
       = Some (added e (default [] (active_bucket (this w) category)))
    /\ service_calls w1 = service_calls w.
Proof.
  intros (rs & Hrs & Ha).
  destruct (nth_Z_in_range rs _ Ha) as (room & Hroom).
  assert (Hb : active_bucket (this w) category = bucket room category).
  { unfold active_bucket. rewrite Hrs, Hroom. reflexivity. }
  rewrite Hb. unfold addEntityToRoom.
  rewrite (bind_normal _ _ _ _ _ (active_room_found w rs room Hrs Hroom)).
  cbn [snd].
  destruct (bucket room category) as [b0|] eqn:Hb0.
  - rewrite (bind_normal (ret tt) _ w tt w eq_refl).
    rewrite (bind_normal _ _ _ _ _ (active_room_found w rs room Hrs Hroom)).
    cbn [snd]. rewrite Hb0. change (default [] (Some b0)) with b0.
    unfold added. destruct (includes e b0); cbn [negb].
    + exists w. split; [reflexivity|]. split; [exists rs; auto|].
      split; [reflexivity|]. split; [congruence|reflexivity].
    + apply (write_save_render w rs); assumption.
  - rewrite (bind_normal _ _ _ _ _ (update_active_room_run w rs _ Hrs)).
    set (room1 := set_bucket room category []).
    set (rs1 := <[Z.to_nat (_activeRoom (this w)) := room1]> rs).
    set (w1 := world_with_this w (card_with_rooms (this w) (RoomList rs1))).
    assert (Hrs1 : _rooms (this w1) = RoomList rs1) by reflexivity.
    assert (Ha1 : 0 <= _activeRoom (this w1) < Z.of_nat (List.length rs1)).
    { unfold rs1. rewrite length_insert. exact Ha. }
    assert (Hroom1 : nth_Z rs1 (_activeRoom (this w1)) = Some room1).
    { apply nth_Z_insert. exact Ha. }
    rewrite (bind_normal _ _ _ _ _ (active_room_found w1 rs1 room1 Hrs1 Hroom1)).
    assert (Hb1 : bucket room1 category = Some []) by apply bucket_set_bucket.
    cbn [snd]. rewrite !Hb1.
    change (default [] (Some (@nil string))) with (@nil string).
    change (default [] (@None (list string))) with (@nil string).
    unfold added. cbn [includes existsb negb app].
    destruct (write_save_render w1 rs1 room1 category [e] Hrs1 Ha1)
      as (w2 & E & H1 & H2 & H3 & H4).
    exists w2. auto.
Qed.

Lemma removeEntityFromRoom_run w category e :
  has_active_room (this w) ->
  exists w1,
    removeEntityFromRoom e category w = (Normal tt, w1)
    /\ has_active_room (this w1)
    /\ _activeRoom (this w1) = _activeRoom (this w)
    /\ active_bucket (this w1) category
       = removed e <$> active_bucket (this w) category
    /\ service_calls w1 = service_calls w.
Proof.
  intros (rs & Hrs & Ha).
  destruct (nth_Z_in_range rs _ Ha) as (room & Hroom).
  assert (Hb : active_bucket (this w) category = bucket room category).
  { unfold active_bucket. rewrite Hrs, Hroom. reflexivity. }
  rewrite Hb. unfold removeEntityFromRoom.
  rewrite (bind_normal _ _ _ _ _ (active_room_found w rs room Hrs Hroom)).
  cbn [snd].
  destruct (bucket room category) as [b0|] eqn:Hb0.
  - cbn [fmap option_fmap option_map]. apply (write_save_render w rs); assumption.
  - exists w. split; [reflexivity|]. split; [exists rs; auto|].
    split; [reflexivity|]. split; [cbn; congruence|reflexivity].
Qed.

End Buckets.

Section BucketFacts.

Lemma added_In e b : In e (added e b).
Proof.
  unfold added. destruct (includes e b) eqn:E.
  - apply includes_In. exact E.
  - apply in_or_app. right. left. reflexivity.
Qed.

Lemma added_NoDup e b : List.NoDup b -> List.NoDup (added e b).
Proof.
  intros H. unfold added. destruct (includes e b) eqn:E; [exact H|].
  apply includes_not_In in E.
  apply List.NoDup_app; [exact H|repeat constructor; intros []|].
  intros x Hx [<-|[]]. exact (E Hx).
Qed.

Lemma removed_NoDup e b : List.NoDup b -> List.NoDup (removed e b).
Proof. apply List.NoDup_filter. Qed.

Lemma removed_In e b x : In x (removed e b) <-> In x b /\ x <> e.
Proof.
  unfold removed. rewrite filter_In, negb_true_iff, String.eqb_neq. tauto.
Qed.

Lemma run_op_run w category op :
  has_active_room (this w) ->
  exists w1,
    run_op category op w = (Normal tt, w1)
    /\ has_active_room (this w1)
    /\ _activeRoom (this w1) = _activeRoom (this w)
    /\ bucket_ids w1 category =
       match op with
       | op_add e => added e (bucket_ids w category)
       | op_remove e => removed e (bucket_ids w category)
       end.
Proof.
  intros Hw. destruct op as [e|e]; cbn [run_op].
  - destruct (addEntityToRoom_run w category e Hw) as (w1 & E & H1 & H2 & H3 & _).
    exists w1. unfold bucket_ids. rewrite H3. auto.
  - destruct (removeEntityFromRoom_run w category e Hw) as (w1 & E & H1 & H2 & H3 & _).
    exists w1. unfold bucket_ids. rewrite H3.
    destruct (active_bucket (this w) category); auto.
Qed.

Lemma run_ops_run category ops :
  forall w,
    has_active_room (this w) ->
    List.NoDup (bucket_ids w category) ->
    exists w1,
      run_ops category ops w = (Normal tt, w1)
      /\ has_active_room (this w1)
      /\ List.NoDup (bucket_ids w1 category).
Proof.
  induction ops as [|op ops IH]; intros w Hw Hnd.
  - exists w. auto.
  - destruct (run_op_run w category op Hw) as (w1 & E & H1 & _ & H3).
    cbn [run_ops]. rewrite (bind_normal _ _ _ _ _ E).
    apply IH; [exact H1|]. rewrite H3.
    destruct op; [apply added_NoDup|apply removed_NoDup]; exact Hnd.
Qed.

End BucketFacts.

(** C1: on a card with an active room whose bucket has no duplicate (an
    absent bucket counts as empty), every sequence of [addEntityToRoom]
    and [removeEntityFromRoom] on that bucket completes and leaves the
    bucket without duplicates; and adding one identifier twice, after any
    such sequence, leaves exactly one occurrence of it in the bucket. *)
Theorem bucket_never_holds_duplicates (w : World) (category : Category)
    (ops : list BucketOp) :
  has_active_room (this w) ->
  List.NoDup (bucket_ids w category) ->
  let w' := after (run_ops category ops) w in
  completion (run_ops category ops) w = Normal tt
  /\ List.NoDup (bucket_ids w' category)
  /\ forall e,
       let w2 := after (run_ops category [op_add e; op_add e]) w' in
       completion (run_ops category [op_add e; op_add e]) w' = Normal tt
       /\ count_occ string_dec (bucket_ids w2 category) e = 1%nat.
Proof.
  intros Hw Hnd w'. subst w'. unfold completion, after.
  destruct (run_ops_run category ops w Hw Hnd) as (w1 & -> & Hw1 & Hnd1).
  cbn [fst snd]. split; [reflexivity|]. split; [exact Hnd1|].
  intros e.
  destruct (run_op_run w1 category (op_add e) Hw1) as (w2 & E2 & Hw2 & _ & Hb2).
  destruct (run_op_run w2 category (op_add e) Hw2) as (w3 & E3 & Hw3 & _ & Hb3).
  cbn [run_ops]. cbn [run_op] in E2, E3.
  rewrite (bind_normal _ _ _ _ _ E2), (bind_normal _ _ _ _ _ E3).
  cbn [ret fst snd]. split; [reflexivity|].
  rewrite Hb3, Hb2.
  apply NoDup_count_occ'; [|apply added_In].
  apply added_NoDup, added_NoDup, Hnd1.
Qed.

Lemma defaults_world_has_active_room : has_active_room (this defaults_world).
Proof. exists (getDefaultRooms dist_copy). split; [reflexivity|]. cbn. lia. Qed.

Lemma bucket_never_holds_duplicates_witness :
  count_occ string_dec
    (bucket_ids
       (after (run_ops cat_lights [op_add "light.kitchen"; op_add "light.kitchen"])
          defaults_world) cat_lights)
    "light.kitchen" = 1%nat.
Proof.
  destruct (bucket_never_holds_duplicates defaults_world cat_lights []
              defaults_world_has_active_room) as (_ & _ & H).
  - constructor.
  - apply (H "light.kitchen").
Defined.

(** The scenario of the specification: on the default rooms, adding
    [light.kitchen] twice to the lights of room 0 leaves it once. *)
Example add_kitchen_light_twice :
  bucket_ids
    (after (run_ops cat_lights [op_add "light.kitchen"; op_add "light.kitchen"])
       defaults_world) cat_lights
  = ["light.kitchen"].
Proof. vm_compute. reflexivity. Qed.

Section History.

Lemma StronglySorted_weaken {A} (R R' : A -> A -> Prop) l :
  StronglySorted R l ->
  (forall x y, In x l -> In y l -> R x y -> R' x y) ->
  StronglySorted R' l.
Proof.
  induction 1 as [|a l Hs IH Hf]; intros HR; constructor.
  - apply IH. intros x y Hx Hy. apply HR; right; assumption.
  - rewrite List.Forall_forall in *. intros y Hy.
    apply HR; [left; reflexivity|right; exact Hy|apply Hf, Hy].
Qed.

Lemma StronglySorted_filter {A} (R : A -> A -> Prop) f l :
  StronglySorted R l -> StronglySorted R (List.filter f l).
Proof.
  induction 1 as [|a l Hs IH Hf]; [constructor|].
  cbn [List.filter]. destruct (f a); [|exact IH].
  constructor; [exact IH|].
  rewrite List.Forall_forall in *. intros y Hy.
  apply filter_In in Hy as [Hy _]. apply Hf, Hy.
Qed.

Lemma StronglySorted_snoc {A} (R : A -> A -> Prop) l a :
  StronglySorted R l -> (forall x, In x l -> R x a) -> StronglySorted R (l ++ [a]).
Proof.
  induction 1 as [|b l Hs IH Hf]; intros Ha; cbn [app].
  - repeat constructor.
  - constructor.
    + apply IH. intros x Hx. apply Ha. right. exact Hx.
    + rewrite List.Forall_forall in *. intros y Hy.
      apply in_app_or in Hy as [Hy|[<-|[]]]; [apply Hf, Hy|].
      apply Ha. left. reflexivity.
Qed.

Lemma timed_add b now since e :
  timed b now since ->
  timed (added e b) (S now)
    (fun x => if String.eqb e x
              then match since x with Some t => Some t | None => Some now end
              else since x).
Proof.
  intros (Hm & Ht & Hs). unfold added.
  destruct (includes e b) eqn:E.
  - apply includes_In in E. destruct (proj1 (Hm e) E) as (te & Hte).
    split; [|split].
    + intros x. rewrite Hm. destruct (String.eqb_spec e x) as [<-|]; [|tauto].
      rewrite Hte. tauto.
    + intros x t. destruct (String.eqb_spec e x) as [<-|].
      * rewrite Hte. intros [= <-]. specialize (Ht _ _ Hte). lia.
      * intros H. specialize (Ht _ _ H). lia.
    + apply (StronglySorted_weaken _ _ _ Hs).
      intros x y _ _ (tx & ty & Hx & Hy & Hlt). exists tx, ty.
      split; [|split; [|exact Hlt]].
      * destruct (String.eqb_spec e x) as [<-|]; [rewrite Hx|]; assumption || reflexivity.
      * destruct (String.eqb_spec e y) as [<-|]; [rewrite Hy|]; assumption || reflexivity.
  - apply includes_not_In in E.
    assert (He : since e = None).
    { destruct (since e) eqn:H; [|reflexivity]. exfalso. apply E, Hm. eauto. }
    split; [|split].
    + intros x. rewrite in_app_iff, Hm. cbn [In].
      destruct (String.eqb_spec e x) as [<-|Hne].
      * rewrite He. split; [eauto|]. intros _. right. left. reflexivity.
      * split; [intros [H|[H|[]]]; [exact H|contradiction]|auto].
    + intros x t. destruct (String.eqb_spec e x) as [<-|].
      * rewrite He. intros [= <-]. lia.
      * intros H. specialize (Ht _ _ H). lia.
    + apply StronglySorted_snoc.
      * apply (StronglySorted_weaken _ _ _ Hs).
        intros x y Hx Hy (tx & ty & Htx & Hty & Hlt). exists tx, ty.
        split; [|split; [|exact Hlt]].
        -- destruct (String.eqb_spec e x) as [<-|]; [contradiction|exact Htx].
        -- destruct (String.eqb_spec e y) as [<-|]; [contradiction|exact Hty].
      * intros x Hx. destruct (proj1 (Hm x) Hx) as (tx & Htx).
        exists tx, now. split; [|split].
        -- destruct (String.eqb_spec e x) as [<-|]; [contradiction|exact Htx].
        -- rewrite String.eqb_refl, He. reflexivity.
        -- apply (Ht _ _ Htx).
Qed.

Lemma timed_remove b now since e :
  timed b now since ->
  timed (removed e b) (S now)
    (fun x => if String.eqb e x then None else since x).
Proof.
  intros (Hm & Ht & Hs). split; [|split].
  - intros x. rewrite removed_In, Hm.
    destruct (String.eqb_spec e x) as [<-|Hne].
    + split; [intros [_ H]; contradiction|intros [? [=]]].
    + split; [tauto|]. intros H. split; [exact H|congruence].
  - intros x t. destruct (String.eqb_spec e x); [discriminate|].
    intros H. specialize (Ht _ _ H). lia.
  - apply StronglySorted_filter with (f := fun i => negb (String.eqb i e)) in Hs.
    apply (StronglySorted_weaken _ _ _ Hs).
    intros x y Hx Hy (tx & ty & Htx & Hty & Hlt).
    apply removed_In in Hx as [_ Hx]. apply removed_In in Hy as [_ Hy].
    exists tx, ty. split; [|split; [|exact Hlt]].
    + destruct (String.eqb_spec e x); [congruence|exact Htx].
    + destruct (String.eqb_spec e y); [congruence|exact Hty].
Qed.

Lemma timed_replay ops :
  forall b now since,
    timed b now since ->
    timed (replay ops b) (now + List.length ops)
      (fun x => joined_at x ops now (since x)).
Proof.
  induction ops as [|[e|e] ops IH]; intros b now since H; cbn [replay joined_at List.length].
  - rewrite Nat.add_0_r. exact H.
  - rewrite Nat.add_succ_r. apply (IH _ (S now) _ (timed_add b now since e H)).
  - rewrite Nat.add_succ_r. apply (IH _ (S now) _ (timed_remove b now since e H)).
Qed.

Lemma replay_from_empty ops :
  (forall x, In x (replay ops []) <-> is_Some (member_since ops x))
  /\ StronglySorted (joined_before ops) (replay ops []).
Proof.
  destruct (timed_replay ops [] 0%nat (fun _ => None)) as (Hm & _ & Hs).
  - split; [|split].
    + intros x. cbn. split; [intros []|intros [? [=]]].
    + intros x t [=].
    + constructor.
  - split; [exact Hm|exact Hs].
Qed.

Lemma run_ops_replay category ops :
  forall w,
    has_active_room (this w) ->
    exists w1,
      run_ops category ops w = (Normal tt, w1)
      /\ has_active_room (this w1)
      /\ bucket_ids w1 category = replay ops (bucket_ids w category).
Proof.
  induction ops as [|op ops IH]; intros w Hw.
  - exists w. auto.
  - destruct (run_op_run w category op Hw) as (w1 & E & H1 & _ & H3).
    cbn [run_ops]. rewrite (bind_normal _ _ _ _ _ E).
    destruct (IH w1 H1) as (w2 & E2 & H2 & H4).
    exists w2. split; [exact E2|]. split; [exact H2|].
    rewrite H4, H3. destruct op; reflexivity.
Qed.

End History.

Section Order.

Lemma removed_sublist e b : sublist (removed e b) b.
Proof.
  induction b as [|x b IH]; [constructor|].
  unfold removed in *. cbn [List.filter].
  destruct (negb (String.eqb x e)); [apply sublist_skip|apply sublist_cons];
    exact IH.
Qed.

End Order.

(** C10: on a card with an active room, [addEntityToRoom] puts an
    identifier that the bucket lacks at its end and leaves a bucket that
    has it as it is; [removeEntityFromRoom] leaves the other identifiers,
    all of them, in the order they had.  So after any sequence of the two
    operations on a bucket that was empty, the bucket lists its members in
    the order in which they joined it. *)
Theorem bucket_keeps_insertion_order (w : World) (category : Category)
    (e : string) :
  has_active_room (this w) ->
  let b := bucket_ids w category in
  let b_add := bucket_ids (after (addEntityToRoom e category) w) category in
  let b_remove := bucket_ids (after (removeEntityFromRoom e category) w) category in
  (~ In e b -> b_add = b ++ [e])
  /\ (In e b -> b_add = b)
  /\ b_remove = List.filter (fun i => negb (String.eqb i e)) b
  /\ sublist b_remove b
  /\ (forall x, In x b_remove <-> In x b /\ x <> e)
  /\ (forall ops,
        b = [] ->
        let b' := bucket_ids (after (run_ops category ops) w) category in
        completion (run_ops category ops) w = Normal tt
        /\ (forall x, In x b' <-> is_Some (member_since ops x))
        /\ StronglySorted (joined_before ops) b').
Proof.
  intros Hw b b_add b_remove.
  assert (Ha : b_add = added e b).
  { subst b_add. destruct (run_op_run w category (op_add e) Hw) as (w1 & E & _ & _ & H).
    cbn [run_op] in E. unfold after. rewrite E. exact H. }
  assert (Hr : b_remove = removed e b).
  { subst b_remove. destruct (run_op_run w category (op_remove e) Hw) as (w1 & E & _ & _ & H).
    cbn [run_op] in E. unfold after. rewrite E. exact H. }
  rewrite Ha, Hr. unfold added.
  split; [|split; [|split; [|split; [|split]]]].
  - intros H. apply includes_not_In in H. rewrite H. reflexivity.
  - intros H. apply includes_In in H. rewrite H. reflexivity.
  - reflexivity.
  - apply removed_sublist.
  - apply removed_In.
  - intros ops Hb. cbv zeta. unfold completion, after.
    destruct (run_ops_replay category ops w Hw) as (w1 & E & _ & Hb1).
    rewrite E. cbn [fst snd]. rewrite Hb1. fold b. rewrite Hb.
    split; [reflexivity|]. apply replay_from_empty.
Qed.

Lemma garden_world_has_active_room : has_active_room (this garden_world).
Proof. exists [garden]. split; [reflexivity|]. cbn. lia. Qed.

Lemma bucket_keeps_insertion_order_witness :
  bucket_ids (after (addEntityToRoom "light.gate" cat_lights) garden_world) cat_lights
  = ["light.pond"; "light.shed"; "light.gate"]
  /\ StronglySorted
       (joined_before [op_add "a"; op_add "b"; op_remove "a"; op_add "a"])
       (bucket_ids
          (after (run_ops cat_climate
                    [op_add "a"; op_add "b"; op_remove "a"; op_add "a"])
             garden_world) cat_climate).
Proof.
  destruct (bucket_keeps_insertion_order garden_world cat_lights "light.gate"
              garden_world_has_active_room) as (H & _).
  destruct (bucket_keeps_insertion_order garden_world cat_climate "a"
              garden_world_has_active_room) as (_ & _ & _ & _ & _ & H').
  split.
  - apply H. cbn. intros [[=]|[[=]|[]]].
  - apply H'. reflexivity.
Defined.

(** The history of the witness: [a] left and came back, so it stands
    after [b]. *)
Example bucket_order_after_return :
  bucket_ids
    (after (run_ops cat_climate [op_add "a"; op_add "b"; op_remove "a"; op_add "a"])
       garden_world) cat_climate
  = ["b"; "a"].
Proof. vm_compute. reflexivity. Qed.

(** * Properties of the rest of the card *)

Section Frames.

Lemma store_frame_refl key st : store_frame key st st.
Proof. repeat split. Qed.

Lemma store_frame_trans key st1 st2 st3 :
  store_frame key st1 st2 -> store_frame key st2 st3 -> store_frame key st1 st3.
Proof.
  intros (A1 & Q1 & I1) (A2 & Q2 & I2). split; [congruence|]. split; [congruence|].
  intros k Hk. rewrite I2, I1 by exact Hk. reflexivity.
Qed.

Lemma edited_refl w : edited w w.
Proof. repeat split. Qed.

Lemma edited_trans w1 w2 w3 : edited w1 w2 -> edited w2 w3 -> edited w1 w3.
Proof.
  intros (H1 & C1 & S1 & F1) (H2 & C2 & S2 & F2).
  split; [congruence|]. split; [congruence|]. split; [congruence|].
  rewrite C1 in F2. exact (store_frame_trans _ _ _ _ F1 F2).
Qed.

Lemma after_bind {A B} (m : Js A) (k : A -> Js B) w :
  after (bind m k) w =
  match m w with
  | (Normal a, w') => after (k a) w'
  | (Throw e, w') => w'
  end.
Proof. unfold after, bind. destruct (m w) as [[a|e] w']; reflexivity. Qed.

Lemma only_edits_ret {A} (a : A) : only_edits (ret a).
Proof. intros w. apply edited_refl. Qed.

Lemma only_edits_throw {A} e : only_edits (@throw A e).
Proof. intros w. apply edited_refl. Qed.

Lemma only_edits_bind {A B} (m : Js A) (k : A -> Js B) :
  only_edits m -> (forall a, only_edits (k a)) -> only_edits (bind m k).
Proof.
  intros Hm Hk w. rewrite after_bind. specialize (Hm w). unfold after in Hm.
  destruct (m w) as [[a|e] w']; cbn [snd] in Hm; [|exact Hm].
  exact (edited_trans _ _ _ Hm (Hk a w')).
Qed.

Lemma only_edits_try_catch {A} (m : Js A) (h : JsError -> Js A) :
  only_edits m -> (forall e, only_edits (h e)) -> only_edits (try_catch m h).
Proof.
  intros Hm Hh w. specialize (Hm w). unfold after, try_catch in *.
  destruct (m w) as [[a|e] w']; cbn [snd] in *; [exact Hm|].
  exact (edited_trans _ _ _ Hm (Hh e w')).
Qed.

Lemma only_edits_read_this : only_edits read_this.
Proof. intros w. apply edited_refl. Qed.

Lemma only_edits_set_rooms rv : only_edits (set_rooms rv).
Proof. intros w. repeat split. Qed.

Lemma only_edits_set_activeRoom i : only_edits (set_activeRoom i).
Proof. intros w. repeat split. Qed.

Lemma only_edits_console_error msg : only_edits (console_error msg).
Proof. intros w. repeat split. Qed.

Lemma only_edits_getItem k : only_edits (localStorage_getItem k).
Proof. intros w. apply edited_refl. Qed.

Lemma only_edits_JSON_parse s : only_edits (JSON_parse s).
Proof.
  unfold JSON_parse. destruct (Json.parse s);
    [apply only_edits_ret|apply only_edits_throw].
Qed.

Lemma setItem_frame k v st st' :
  Storage.setItem k v st = Normal st' ->
  store_frame k st st' /\ Storage.items st' !! k = Some v.
Proof.
  unfold Storage.setItem.
  destruct (Storage.accessible st) eqn:Ha; [|discriminate]. cbn [negb].
  destruct (_ <=? _)%nat; [|discriminate]. intros [= <-].
  cbn [Storage.accessible Storage.quota Storage.items].
  split; [|apply lookup_insert_eq].
  split; [cbn; congruence|]. split; [reflexivity|].
  intros k' Hk. apply lookup_insert_ne. congruence.
Qed.

Lemma only_edits_saveRoomConfig : only_edits saveRoomConfig.
Proof.
  intros w. unfold after, saveRoomConfig, try_catch, bind, read_this,
    localStorage_setItem, console_error.
  destruct (Storage.setItem _ _ (localStorage w)) as [st'|e] eqn:E; cbn [snd].
  - apply setItem_frame in E as [E _]. repeat split; apply E.
  - repeat split.
Qed.

Lemma only_edits_active_room : only_edits active_room.
Proof.
  intros w. unfold after, active_room, bind, read_this.
  destruct (_rooms (this w)) as [|rs|v]; try apply edited_refl.
  destruct (nth_Z rs _); apply edited_refl.
Qed.

Lemma only_edits_rooms_array : only_edits rooms_array.
Proof.
  intros w. unfold after, rooms_array, bind, read_this.
  destruct (_rooms (this w)); apply edited_refl.
Qed.

Lemma only_edits_update_active_room r : only_edits (update_active_room r).
Proof.
  intros w. unfold after, update_active_room, bind, read_this.
  destruct (_rooms (this w)); try apply edited_refl. repeat split.
Qed.

Lemma only_edits_render : only_edits render.
Proof.
  intros [[h cfg a em mo md r] st con calls n].
  unfold after, render, bind, active_room, read_this.
  cbn [this _hass _rooms _activeRoom].
  destruct h; destruct r as [|rs|v]; cbn;
    try (destruct (nth_Z rs a); cbn); try (destruct (Json.truthy v); cbn);
    repeat split.
Qed.

End Frames.

Create HintDb edits.

#[export] Hint Resolve only_edits_ret only_edits_throw only_edits_read_this
  only_edits_set_rooms only_edits_set_activeRoom only_edits_console_error
  only_edits_getItem only_edits_JSON_parse only_edits_saveRoomConfig
  only_edits_active_room only_edits_rooms_array only_edits_update_active_room
  only_edits_render : edits.

Ltac edits :=
  repeat first
    [ progress cbv beta
    | solve [auto with edits]
    | apply only_edits_bind; [|intros ?]
    | apply only_edits_try_catch; [|intros ?]
    | match goal with
      | |- only_edits (match ?x with _ => _ end) => destruct x
      | |- only_edits (if ?x then _ else _) => destruct x
      end ].

Section MethodsOnlyEdit.

Lemma only_edits_loadRoomConfig copy : only_edits (loadRoomConfig copy).
Proof. unfold loadRoomConfig. edits. Qed.

Lemma only_edits_addEntityToRoom e category : only_edits (addEntityToRoom e category).
Proof. unfold addEntityToRoom. edits. Qed.

Lemma only_edits_removeEntityFromRoom e category :
  only_edits (removeEntityFromRoom e category).
Proof. unfold removeEntityFromRoom. edits. Qed.

Lemma only_edits_addRoom copy n : only_edits (addRoom copy n).
Proof. unfold addRoom. edits. Qed.

Lemma only_edits_removeRoom i : only_edits (removeRoom i).
Proof. unfold removeRoom. edits. Qed.

Lemma only_edits_click_entity_item e category : only_edits (click_entity_item e category).
Proof.
  unfold click_entity_item.
  apply only_edits_bind; [apply only_edits_active_room|intros rr; cbv beta zeta].
  destruct (includes _ _);
    [apply only_edits_removeEntityFromRoom|apply only_edits_addEntityToRoom].
Qed.

Lemma only_edits_run_edit copy e : only_edits (run_edit copy e).
Proof.
  destruct e; cbn [run_edit];
    auto using only_edits_addRoom, only_edits_removeRoom,
      only_edits_addEntityToRoom, only_edits_removeEntityFromRoom,
      only_edits_click_entity_item.
Qed.

Lemma only_edits_run_edits copy es : only_edits (run_edits copy es).
Proof.
  induction es as [|e es IH]; cbn [run_edits]; [apply only_edits_ret|].
  apply only_edits_bind; [apply only_edits_run_edit|intros _; exact IH].
Qed.

End MethodsOnlyEdit.

Section Runs.

Lemma set_rooms_run rv w :
  set_rooms rv w = (Normal tt, world_with_this w (card_with_rooms (this w) rv)).
Proof. reflexivity. Qed.

Lemma set_activeRoom_run i w :
  set_activeRoom i w = (Normal tt, world_with_this w (card_with_activeRoom (this w) i)).
Proof. reflexivity. Qed.

Lemma saveRoomConfig_run w :
  saveRoomConfig w = (Normal tt, after saveRoomConfig w)
  /\ this (after saveRoomConfig w) = this w
  /\ service_calls (after saveRoomConfig w) = service_calls w.
Proof.
  unfold after. destruct (saveRoomConfig_effect w) as (st & con & ->).
  cbn [snd this service_calls]. auto.
Qed.

Lemma render_run w rs room :
  _rooms (this w) = RoomList rs ->
  nth_Z rs (_activeRoom (this w)) = Some room ->
  render w = (Normal tt, after render w)
  /\ this (after render w) = this w
  /\ localStorage (after render w) = localStorage w
  /\ console (after render w) = console w
  /\ service_calls (after render w) = service_calls w.
Proof.
  intros Hrs Hroom. unfold after.
  destruct (render_effect w rs room Hrs Hroom) as (n & ->). cbn. auto.
Qed.

(** The store after [saveRoomConfig]. *)
Lemma saveRoomConfig_store w :
  localStorage (after saveRoomConfig w) =
  match Storage.setItem (storage_key (_config (this w)))
          (JSON_stringify (_rooms (this w))) (localStorage w) with
  | Normal st => st
  | Throw _ => localStorage w
  end.
Proof.
  destruct w as [c st con calls n].
  unfold after, saveRoomConfig, try_catch, bind, read_this, localStorage_setItem,
    console_error.
  cbn [this localStorage]. destruct (Storage.setItem _ _ st); reflexivity.
Qed.

Lemma saveRoomConfig_in_sync w :
  accepts (localStorage w) (storage_key (_config (this w)))
    (JSON_stringify (_rooms (this w))) ->
  in_sync (after saveRoomConfig w)
  /\ Storage.accessible (localStorage (after saveRoomConfig w)) = true.
Proof.
  unfold accepts, in_sync. intros H.
  destruct (saveRoomConfig_run w) as (_ & Ht & _). rewrite Ht.
  rewrite saveRoomConfig_store.
  destruct (Storage.setItem _ _ (localStorage w)) as [st|e] eqn:E; [|discriminate].
  destruct (setItem_frame _ _ _ _ E) as ((Ha & _) & Hi).
  split; [exact Hi|]. rewrite Ha.
  unfold Storage.setItem in E. destruct (Storage.accessible (localStorage w));
    [reflexivity|discriminate].
Qed.

(** The rooms that [removeRoom] leaves. *)
Lemma splice1_length_bounds {A} (l : list A) index :
  (List.length l - 1 <= List.length (splice1 l index) <= List.length l)%nat.
Proof.
  unfold splice1. rewrite length_app, length_take, length_drop. lia.
Qed.

Lemma addRoom_run copy n w rs :
  _rooms (this w) = RoomList rs ->
  let room := empty_room (slug n) n (new_room_icon copy) in
  let c1 := card_with_rooms (this w) (RoomList (rs ++ [room])) in
  let w1 := world_with_this w c1 in
  completion (addRoom copy n) w = Normal tt
  /\ this (after (addRoom copy n) w)
     = card_with_activeRoom c1 (Z.of_nat (List.length rs))
  /\ localStorage (after (addRoom copy n) w) = localStorage (after saveRoomConfig w1)
  /\ service_calls (after (addRoom copy n) w) = service_calls w.
Proof.
  intros Hrs room c1 w1. unfold completion, after at 1 2 4, addRoom.
  rewrite (bind_normal _ _ _ rs w (rooms_array_list w rs Hrs)).
  fold room. rewrite (bind_normal _ _ _ _ _ (set_rooms_run _ w)). fold c1 w1.
  destruct (saveRoomConfig_run w1) as (Es & Ht & Hc).
  rewrite (bind_normal _ _ _ _ _ Es).
  set (w2 := after saveRoomConfig w1) in *.
  assert (Hrs2 : _rooms (this w2) = RoomList (rs ++ [room])) by (rewrite Ht; reflexivity).
  rewrite (bind_normal _ _ _ _ _ (rooms_array_list w2 _ Hrs2)).
  rewrite (bind_normal _ _ _ _ _ (set_activeRoom_run _ w2)).
  replace (Z.of_nat (List.length (rs ++ [room])) - 1) with (Z.of_nat (List.length rs))
    by (rewrite length_app; cbn [List.length]; lia).
  set (w3 := world_with_this w2 _).
  destruct (render_run w3 (rs ++ [room]) room) as (Er & Ht3 & Hs3 & _ & Hc3).
  { unfold w3. cbn [this world_with_this card_with_activeRoom _rooms]. exact Hrs2. }
  { unfold w3. cbn [this world_with_this card_with_activeRoom _activeRoom].
    unfold nth_Z. destruct (Z.ltb_spec (Z.of_nat (List.length rs)) 0); [lia|].
    rewrite Nat2Z.id. apply list_lookup_middle. reflexivity. }
  rewrite Er. cbn [fst snd]. rewrite Ht3, Hs3, Hc3.
  unfold w3. cbn [this world_with_this localStorage service_calls].
  rewrite Ht, Hc. auto.
Qed.

Lemma removeRoom_refused index w rs :
  _rooms (this w) = RoomList rs ->
  (List.length rs <= 1)%nat ->
  removeRoom index w = (Normal tt, w).
Proof.
  intros Hrs Hn. unfold removeRoom.
  rewrite (bind_normal _ _ _ rs w (rooms_array_list w rs Hrs)).
  destruct (Z.gtb_spec (Z.of_nat (List.length rs)) 1); [lia|reflexivity].
Qed.

Lemma removeRoom_run index w rs :
  _rooms (this w) = RoomList rs ->
  (1 < List.length rs)%nat ->
  0 <= _activeRoom (this w) < Z.of_nat (List.length rs) ->
  let rs' := splice1 rs index in
  let a := _activeRoom (this w) in
  let a' := if a >=? Z.of_nat (List.length rs') then Z.of_nat (List.length rs') - 1 else a in
  let c1 := card_with_activeRoom (card_with_rooms (this w) (RoomList rs')) a' in
  let w1 := world_with_this w c1 in
  completion (removeRoom index) w = Normal tt
  /\ this (after (removeRoom index) w) = c1
  /\ localStorage (after (removeRoom index) w) = localStorage (after saveRoomConfig w1)
  /\ service_calls (after (removeRoom index) w) = service_calls w
  /\ 0 <= a' < Z.of_nat (List.length rs').
Proof.
  intros Hrs Hn Ha rs' a a' c1 w1.
  pose proof (splice1_length_bounds rs index) as Hlen. fold rs' in Hlen.
  assert (Ha' : 0 <= a' < Z.of_nat (List.length rs')).
  { subst a'. destruct (Z.geb_spec a (Z.of_nat (List.length rs'))); subst a; lia. }
  unfold completion, after at 1 2 4, removeRoom.
  rewrite (bind_normal _ _ _ rs w (rooms_array_list w rs Hrs)).
  destruct (Z.gtb_spec (Z.of_nat (List.length rs)) 1) as [_|]; [|lia].
  fold rs'. rewrite (bind_normal _ _ _ _ _ (set_rooms_run _ w)).
  set (w0 := world_with_this w (card_with_rooms (this w) (RoomList rs'))).
  rewrite (bind_normal read_this _ w0 (this w0) w0 eq_refl).
  rewrite (bind_normal _ _ _ rs' w0 (rooms_array_list w0 rs' eq_refl)).
  assert (Eclamp :
    (if _activeRoom (this w0) >=? Z.of_nat (List.length rs')
     then set_activeRoom (Z.of_nat (List.length rs') - 1) else ret tt) w0
    = (Normal tt, w1)).
  { subst w1 c1 a'. change (_activeRoom (this w0)) with a.
    destruct (a >=? Z.of_nat (List.length rs')); [reflexivity|].
    unfold ret, w0, world_with_this. subst a. destruct w as [[] ? ? ? ?]. reflexivity. }
  rewrite (bind_normal _ _ _ _ _ Eclamp).
  destruct (saveRoomConfig_run w1) as (Es & Ht & Hc).
  rewrite (bind_normal _ _ _ _ _ Es).
  destruct (nth_Z_in_range rs' a' Ha') as (room & Hroom).
  destruct (render_run (after saveRoomConfig w1) rs' room) as (Er & Ht3 & Hs3 & _ & Hc3).
  { rewrite Ht. reflexivity. }
  { rewrite Ht. exact Hroom. }
  rewrite Er. cbn [fst snd]. rewrite Ht3, Hs3, Hc3, Ht, Hc. auto.
Qed.

Lemma entity_write_run w rs room category b :
  _rooms (this w) = RoomList rs ->
  0 <= _activeRoom (this w) < Z.of_nat (List.length rs) ->
  let rs1 := <[Z.to_nat (_activeRoom (this w)) := set_bucket room category b]> rs in
  let c1 := card_with_rooms (this w) (RoomList rs1) in
  let w1 := world_with_this w c1 in
  let m := update_active_room (set_bucket room category b) ;; saveRoomConfig ;; render in
  completion m w = Normal tt
  /\ this (after m w) = c1
  /\ localStorage (after m w) = localStorage (after saveRoomConfig w1)
  /\ service_calls (after m w) = service_calls w.
Proof.
  intros Hrs Ha rs1 c1 w1 m. subst m. unfold completion, after at 1 2 4.
  rewrite (bind_normal _ _ _ _ _ (update_active_room_run w rs _ Hrs)).
  fold rs1 c1 w1.
  destruct (saveRoomConfig_run w1) as (Es & Ht & Hc).
  rewrite (bind_normal _ _ _ _ _ Es).
  destruct (render_run (after saveRoomConfig w1) rs1 (set_bucket room category b))
    as (Er & Ht3 & Hs3 & _ & Hc3).
  { rewrite Ht. reflexivity. }
  { rewrite Ht. apply nth_Z_insert. exact Ha. }
  rewrite Er. cbn [fst snd]. rewrite Ht3, Hs3, Hc3, Ht, Hc. auto.
Qed.

End Runs.

Section Outcomes.

Lemma entity_write_outcome w rs room category b :
  _rooms (this w) = RoomList rs ->
  0 <= _activeRoom (this w) < Z.of_nat (List.length rs) ->
  let m := update_active_room (set_bucket room category b) ;; saveRoomConfig ;; render in
  completion m w = Normal tt
  /\ has_active_room (this (after m w))
  /\ _config (this (after m w)) = _config (this w)
  /\ exists w1,
       localStorage w1 = localStorage w
       /\ _config (this w1) = _config (this w)
       /\ _rooms (this w1) = _rooms (this (after m w))
       /\ localStorage (after m w) = localStorage (after saveRoomConfig w1).
Proof.
  intros Hrs Ha.
  destruct (entity_write_run w rs room category b Hrs Ha) as (Hc & Ht & Hs & _).
  cbv zeta in *. split; [exact Hc|]. rewrite Ht. split; [|split; [reflexivity|]].
  - eexists. split; [reflexivity|]. rewrite length_insert. exact Ha.
  - eexists. split; [|split; [|split; [|exact Hs]]]; reflexivity.
Qed.

Lemma addEntityToRoom_outcome e category w :
  has_active_room (this w) -> saved_or_same (addEntityToRoom e category) w.
Proof.
  intros (rs & Hrs & Ha).
  destruct (nth_Z_in_range rs _ Ha) as (room & Hroom).
  unfold saved_or_same, completion, after, addEntityToRoom.
  rewrite (bind_normal _ _ _ _ _ (active_room_found w rs room Hrs Hroom)).
  cbn [snd].
  destruct (bucket room category) as [b0|] eqn:Hb0.
  - rewrite (bind_normal (ret tt) _ w tt w eq_refl).
    rewrite (bind_normal _ _ _ _ _ (active_room_found w rs room Hrs Hroom)).
    cbn [snd]. rewrite Hb0. change (default [] (Some b0)) with b0.
    destruct (includes e b0); cbn [negb].
    + cbn [ret fst snd]. split; [reflexivity|]. split; [exists rs; auto|]. auto.
    + destruct (entity_write_outcome w rs room category (b0 ++ [e]) Hrs Ha)
        as (Hc & Hh & Hcfg & Hd).
      split; [exact Hc|]. split; [exact Hh|]. split; [exact Hcfg|]. right. exact Hd.
  - rewrite (bind_normal _ _ _ _ _ (update_active_room_run w rs _ Hrs)).
    set (room1 := set_bucket room category []).
    set (rs1 := <[Z.to_nat (_activeRoom (this w)) := room1]> rs).
    set (w1 := world_with_this w (card_with_rooms (this w) (RoomList rs1))).
    assert (Hrs1 : _rooms (this w1) = RoomList rs1) by reflexivity.
    assert (Ha1 : 0 <= _activeRoom (this w1) < Z.of_nat (List.length rs1)).
    { unfold rs1. rewrite length_insert. exact Ha. }
    assert (Hroom1 : nth_Z rs1 (_activeRoom (this w1)) = Some room1).
    { apply nth_Z_insert. exact Ha. }
    rewrite (bind_normal _ _ _ _ _ (active_room_found w1 rs1 room1 Hrs1 Hroom1)).
    assert (Hb1 : bucket room1 category = Some []) by apply bucket_set_bucket.
    cbn [snd]. rewrite !Hb1.
    change (default [] (Some (@nil string))) with (@nil string).
    cbn [includes existsb negb app].
    destruct (entity_write_outcome w1 rs1 room1 category [e] Hrs1 Ha1)
      as (Hc & Hh & Hcfg & (w2 & H1 & H2 & H3 & H4)).
    split; [exact Hc|]. split; [exact Hh|]. split; [exact Hcfg|].
    right. exists w2. auto.
Qed.

Lemma removeEntityFromRoom_outcome e category w :
  has_active_room (this w) -> saved_or_same (removeEntityFromRoom e category) w.
Proof.
  intros (rs & Hrs & Ha).
  destruct (nth_Z_in_range rs _ Ha) as (room & Hroom).
  unfold saved_or_same, completion, after, removeEntityFromRoom.
  rewrite (bind_normal _ _ _ _ _ (active_room_found w rs room Hrs Hroom)).
  cbn [snd].
  destruct (bucket room category) as [b0|].
  - destruct (entity_write_outcome w rs room category
                (List.filter (fun i => negb (String.eqb i e)) b0) Hrs Ha)
      as (Hc & Hh & Hcfg & Hd).
    split; [exact Hc|]. split; [exact Hh|]. split; [exact Hcfg|]. right. exact Hd.
  - cbn [ret fst snd]. split; [reflexivity|]. split; [exists rs; auto|]. auto.
Qed.

Lemma click_entity_item_outcome e category w :
  has_active_room (this w) -> saved_or_same (click_entity_item e category) w.
Proof.
  intros Hw. pose proof Hw as (rs & Hrs & Ha).
  destruct (nth_Z_in_range rs _ Ha) as (room & Hroom).
  unfold saved_or_same, completion, after, click_entity_item.
  rewrite (bind_normal _ _ _ _ _ (active_room_found w rs room Hrs Hroom)).
  cbn [snd]. destruct (includes e _).
  - apply removeEntityFromRoom_outcome, Hw.
  - apply addEntityToRoom_outcome, Hw.
Qed.

Lemma addRoom_outcome copy n w :
  has_active_room (this w) -> saved_or_same (addRoom copy n) w.
Proof.
  intros (rs & Hrs & Ha).
  destruct (addRoom_run copy n w rs Hrs) as (Hc & Ht & Hs & _). cbv zeta in *.
  split; [exact Hc|]. rewrite Ht. split; [|split; [reflexivity|]].
  - eexists. split; [reflexivity|].
    cbn [_activeRoom card_with_activeRoom]. rewrite length_app. cbn [List.length]. lia.
  - right. eexists. split; [|split; [|split; [|exact Hs]]]; reflexivity.
Qed.

Lemma removeRoom_outcome index w :
  has_active_room (this w) -> saved_or_same (removeRoom index) w.
Proof.
  intros (rs & Hrs & Ha).
  destruct (le_lt_dec (List.length rs) 1) as [Hn|Hn].
  - unfold saved_or_same, completion, after.
    rewrite (removeRoom_refused index w rs Hrs Hn). cbn [fst snd].
    split; [reflexivity|]. split; [exists rs; auto|]. auto.
  - destruct (removeRoom_run index w rs Hrs Hn Ha) as (Hc & Ht & Hs & _ & Ha').
    cbv zeta in *. split; [exact Hc|]. rewrite Ht. split; [|split; [reflexivity|]].
    + eexists. split; [reflexivity|]. exact Ha'.
    + right. eexists. split; [|split; [|split; [|exact Hs]]]; reflexivity.
Qed.

Lemma run_edit_outcome copy e w :
  has_active_room (this w) -> saved_or_same (run_edit copy e) w.
Proof.
  destruct e; cbn [run_edit];
    auto using addRoom_outcome, removeRoom_outcome, addEntityToRoom_outcome,
      removeEntityFromRoom_outcome, click_entity_item_outcome.
Qed.

End Outcomes.

(** X1: the edits of the configuration, the loading and the saving never
    call a service of the host, never change the host object or the
    card's options, and change no item of the store but the card's own;
    this from every world, also one in which they throw. *)
Theorem edits_stay_inside_the_configuration (copy : Copy) :
  (forall es w, edited w (after (run_edits copy es) w))
  /\ (forall w, edited w (after (loadRoomConfig copy) w))
  /\ (forall w, edited w (after saveRoomConfig w)).
Proof.
  split; [|split].
  - intros es. apply only_edits_run_edits.
  - apply only_edits_loadRoomConfig.
  - apply only_edits_saveRoomConfig.
Qed.

Section Sequences.

Lemma run_edits_usable copy es :
  forall w,
    has_active_room (this w) ->
    completion (run_edits copy es) w = Normal tt
    /\ has_active_room (this (after (run_edits copy es) w)).
Proof.
  induction es as [|e es IH]; intros w Hw; [split; [reflexivity|exact Hw]|].
  destruct (run_edit_outcome copy e w Hw) as (Hc & Hh & _).
  unfold completion, after in *. cbn [run_edits]. unfold bind.
  destruct (run_edit copy e w) as [[[]|err] w1]; cbn [fst snd] in *; [|discriminate].
  apply IH, Hh.
Qed.

End Sequences.

(** X2: the active room is an invariant of the edits.  From a card that
    has an active room, every sequence of edits (rooms added under any
    name, rooms removed at any integer index, identifiers added to,
    removed from or picked for any bucket) leaves a card with at least
    one room and an active index that names one: each edit has settled
    the rooms and the index before it draws.  On a card without a host
    object, where nothing is drawn, the sequence also completes without
    an error. *)
Theorem edits_keep_an_active_room (copy : Copy) (es : list Edit) (w : World) :
  has_active_room (this w) ->
  let w' := after (run_edits copy es) w in
  has_active_room (this w')
  /\ (exists rs room,
        _rooms (this w') = RoomList rs
        /\ (1 <= List.length rs)%nat
        /\ nth_Z rs (_activeRoom (this w')) = Some room)
  /\ (_hass (this w) = None -> completion (run_edits copy es) w = Normal tt).
Proof.
  intros Hw w'. destruct (run_edits_usable copy es w Hw) as (Hc & Hh).
  split; [exact Hh|]. split; [|intros _; exact Hc].
  destruct Hh as (rs & Hrs & Ha).
  destruct (nth_Z_in_range rs _ Ha) as (room & Hroom).
  exists rs, room. split; [exact Hrs|]. split; [lia|exact Hroom].
Qed.

Lemma edits_keep_an_active_room_witness :
  has_active_room
    (this (after
             (run_edits dist_copy
                [edit_removeRoom (-1); edit_removeRoom 7; edit_addRoom "!!";
                 edit_pick "light.a" cat_lights; edit_removeRoom 0; edit_removeRoom 0;
                 edit_removeRoom 0; edit_removeRoom 0; edit_removeRoom 0])
             five_rooms_last_active)).
Proof.
  assert (Hw : has_active_room (this five_rooms_last_active)).
  { exists (getDefaultRooms dist_copy). split; [reflexivity|]. cbn. lia. }
  apply (edits_keep_an_active_room dist_copy _ five_rooms_last_active Hw).
Defined.

Section Persisted.

Lemma accepts_accessible st k v : accepts st k v -> Storage.accessible st = true.
Proof.
  unfold accepts, Storage.setItem. destruct (Storage.accessible st);
    [reflexivity|discriminate].
Qed.

End Persisted.

(** X3: an edit is written to the store before it returns.  On a card
    with an active room whose store holds the rooms in memory, after any
    one edit the store still holds the rooms in memory, provided that it
    takes the new serialization; and a card opened on that store then
    loads exactly these rooms. *)
Theorem edit_is_persisted (copy : Copy) (e : Edit) (w : World) :
  has_active_room (this w) ->
  in_sync w ->
  let w' := after (run_edit copy e) w in
  accepts (localStorage w) (storage_key (_config (this w)))
    (JSON_stringify (_rooms (this w'))) ->
  in_sync w'
  /\ _rooms (this (after (loadRoomConfig copy)
                     (opened (_config (this w')) (localStorage w'))))
     = _rooms (this w').
Proof.
  intros Hw Hsync w' Hacc.
  destruct (run_edit_outcome copy e w Hw) as (_ & Hh & Hcfg & Hd). fold w' in Hh, Hcfg, Hd.
  assert (H : in_sync w' /\ Storage.accessible (localStorage w') = true).
  { destruct Hd as [Hd|(w1 & H1 & H2 & H3 & H4)].
    - rewrite Hd. split; [exact Hsync|]. apply (accepts_accessible _ _ _ Hacc).
    - rewrite <- H1, <- H2, <- H3 in Hacc.
      destruct (saveRoomConfig_in_sync w1 Hacc) as (Hs & Ha).
      destruct (saveRoomConfig_run w1) as (_ & Ht & _).
      unfold in_sync in *. rewrite Ht in Hs.
      rewrite H4, Hcfg, <- H2, <- H3. split; [exact Hs|exact Ha]. }
  destruct H as (Hs & Ha). split; [exact Hs|].
  destruct Hh as (rs & Hrs & _). rewrite Hrs.
  apply loadRoomConfig_stored.
  - exact Ha.
  - unfold in_sync in Hs. rewrite Hrs in Hs. exact Hs.
Qed.

Lemma edit_is_persisted_witness :
  _rooms (this (after (loadRoomConfig root_copy)
                  (opened default_config
                     (localStorage
                        (after (run_edit root_copy (edit_addRoom "Attic")) synced_garden)))))
  = RoomList [garden; empty_room "attic" "Attic" (Some "mdi:home")].
Proof.
  assert (Hw : has_active_room (this synced_garden)).
  { unfold synced_garden. destruct (saveRoomConfig_run garden_world) as (_ & -> & _).
    apply garden_world_has_active_room. }
  assert (Hs : in_sync synced_garden) by (vm_compute; reflexivity).
  destruct (edit_is_persisted root_copy (edit_addRoom "Attic") synced_garden Hw Hs)
    as (_ & H).
  - vm_compute. reflexivity.
  - exact H.
Defined.

Section ActiveAfterRemoval.

Lemma nth_Z_nat {A} (l : list A) (i : Z) :
  0 <= i -> nth_Z l i = l !! Z.to_nat i.
Proof. intros H. unfold nth_Z. destruct (Z.ltb_spec i 0); [lia|reflexivity]. Qed.

End ActiveAfterRemoval.

(** X4: [removeRoom] does not move the active index with the rooms.  With
    more than one room, a valid [index] and a valid active index [a]:
    a room removed after the active one leaves the active room active; a
    room removed at or before a middle active index makes the room that
    followed the active one the active room; and when the active index is
    the last one, the last of the rooms that remain is active. *)
Theorem removeRoom_active_room (w : World) (rs : list Room) (index : Z) :
  _rooms (this w) = RoomList rs ->
  let n := Z.of_nat (List.length rs) in
  let a := _activeRoom (this w) in
  1 < n -> 0 <= index < n -> 0 <= a < n ->
  let w' := after (removeRoom index) w in
  let active' := active_room_of (this w') in
  (a < index -> active' = nth_Z rs a)
  /\ (index <= a -> a < n - 1 -> active' = nth_Z rs (a + 1))
  /\ (index < a -> a = n - 1 -> active' = nth_Z rs a)
  /\ (index = a -> a = n - 1 -> active' = nth_Z rs (a - 1)).
Proof.
  intros Hrs n a Hn Hi Ha w' active'.
  destruct (removeRoom_run index w rs Hrs ltac:(lia) Ha) as (_ & Ht & _ & _ & Ha').
  cbv zeta in Ht, Ha'. fold a in Ht, Ha'.
  pose proof (splice1_length rs index Hi) as Hlen. fold n in Hlen.
  rewrite Hlen in Ht, Ha'.
  subst active' w'. unfold active_room_of. rewrite Ht.
  cbn [_rooms _activeRoom card_with_activeRoom card_with_rooms].
  rewrite (splice1_delete rs index Hi).
  assert (Hd : forall j, 0 <= j ->
            nth_Z (delete (Z.to_nat index) rs) j
            = if j <? index then nth_Z rs j else nth_Z rs (j + 1)).
  { intros j Hj. rewrite nth_Z_nat by exact Hj.
    destruct (Z.ltb_spec j index).
    - rewrite list_lookup_delete_lt by lia. symmetry. apply nth_Z_nat. exact Hj.
    - rewrite list_lookup_delete_ge by lia. rewrite nth_Z_nat by lia.
      f_equal. lia. }
  destruct (Z.geb_spec a (n - 1)) as [Hge|Hlt].
  - rewrite Hd by lia.
    split; [intros; lia|]. split; [intros; lia|].
    split; intros H1 H2.
    + destruct (Z.ltb_spec (n - 1 - 1) index); [lia|]. f_equal. lia.
    + destruct (Z.ltb_spec (n - 1 - 1) index); [f_equal; lia|lia].
  - rewrite Hd by lia.
    split; [|split; [|split; intros; lia]].
    + intros H. destruct (Z.ltb_spec a index); [reflexivity|lia].
    + intros H _. destruct (Z.ltb_spec a index); [lia|reflexivity].
Qed.

Lemma removeRoom_active_room_witness :
  active_room_of (this (after (removeRoom 0) five_rooms_middle_active))
  = Some (empty_room "kantoor" "Kantoor" None).
Proof.
  destruct (removeRoom_active_room five_rooms_middle_active
              (getDefaultRooms dist_copy) 0 eq_refl) as (_ & H & _);
    [cbn; lia ..|].
  rewrite H; [reflexivity|cbn; lia ..].
Defined.

Section CommandSteps.

Lemma callService_commanded w domain service data :
  completion (callService domain service data) w = Normal tt
  /\ commanded w (after (callService domain service data) w)
       (match _hass (this w) with
        | Some _ => [{| call_domain := domain; call_service := service;
                        call_data := data |}]
        | None => []
        end).
Proof.
  unfold completion, after, callService, bind, read_this.
  destruct (_hass (this w)); cbn [fst snd ret].
  - split; [reflexivity|]. repeat split.
  - split; [reflexivity|]. repeat split. cbn. rewrite app_nil_r. reflexivity.
Qed.

Lemma commanded_nil w : commanded w w [].
Proof. repeat split. rewrite app_nil_r. reflexivity. Qed.

End CommandSteps.

(** X5: the commands never throw and touch nothing of the card.  After
    [toggleEntity] or [setTemperature] the card's fields, the store, the
    console and the count of renderings are as before, and the host has
    received at most one call more.  [toggleEntity] makes one exactly when
    [getState] finds a value under the identifier, which for an identifier
    that is not the name of an inherited property is to say that it has a
    live state; [setTemperature] makes one exactly when the card has a
    host object. *)
Theorem commands_leave_the_configuration (w : World) (entityId : string) (t : float) :
  (completion (toggleEntity entityId) w = Normal tt
   /\ exists calls,
        commanded w (after (toggleEntity entityId) w) calls
        /\ (List.length calls <= 1)%nat
        /\ (List.length calls = 1%nat <-> is_Some (looked_up (this w) entityId))
        /\ (~ In entityId object_prototype_names ->
            (List.length calls = 1%nat <-> is_Some (resolved (this w) entityId))))
  /\ (completion (setTemperature entityId t) w = Normal tt
      /\ exists calls,
           commanded w (after (setTemperature entityId t) w) calls
           /\ (List.length calls <= 1)%nat
           /\ (List.length calls = 1%nat <-> is_Some (_hass (this w)))).
Proof.
  split.
  - unfold completion, after.
    assert (Hres : ~ In entityId object_prototype_names ->
              (is_Some (looked_up (this w) entityId)
               <-> is_Some (resolved (this w) entityId))).
    { intros Hn. rewrite <- !not_eq_None_Some, looked_up_None. tauto. }
    destruct (looked_up (this w) entityId) as [v|] eqn:Hv.
    + destruct (looked_up_has_hass _ _ _ Hv) as (h & Hh).
      rewrite (toggleEntity_found w h entityId v Hh Hv). cbn [fst snd].
      split; [reflexivity|]. eexists. split; [repeat split|].
      cbn [List.length]. split; [lia|]. split; [split; eauto|].
      intros Hn. rewrite <- (Hres Hn). split; eauto.
    + rewrite (toggleEntity_not_found w entityId Hv). cbn [fst snd].
      split; [reflexivity|]. exists [].
      split; [apply commanded_nil|]. cbn [List.length]. split; [lia|].
      split; [split; [discriminate|intros [? [=]]]|].
      intros Hn. rewrite <- (Hres Hn). split; [discriminate|intros [? [=]]].
  - unfold setTemperature.
    destruct (callService_commanded w "climate" "set_temperature"
                {| data_entity_id := entityId; data_hvac_mode := None;
                   data_temperature := Some t |}) as (Hc & Hm).
    split; [exact Hc|]. eexists. split; [exact Hm|].
    destruct (_hass (this w)); cbn [List.length]; (split; [lia|]); split;
      eauto; try discriminate. intros [? [=]].
Qed.

(** X6: for an action that is not the name of a property that every
    object inherits, [mediaControl] completes, calls nothing but one of
    the four services of [media_player] for the identifier it was given,
    and leaves the card and the store alone; and when the action is none
    of play, pause, next and prev it does nothing at all. *)
Theorem mediaControl_calls (w : World) (entityId action : string) :
  ~ In action object_prototype_names ->
  completion (mediaControl entityId action) w = Normal tt
  /\ (exists calls,
        commanded w (after (mediaControl entityId action) w) calls
        /\ (List.length calls <= 1)%nat
        /\ forall c, In c calls ->
             call_domain c = "media_player"
             /\ In (call_service c) media_services
             /\ data_entity_id (call_data c) = entityId)
  /\ (~ In action ["play"; "pause"; "next"; "prev"] ->
      after (mediaControl entityId action) w = w).
Proof.
  intros Hproto.
  assert (Hservice : forall s,
            actions_entry action = action_service s -> In s media_services).
  { intros s. unfold actions_entry, media_services.
    repeat (destruct (String.eqb action _);
            [intros [= <-]; cbn; tauto|]).
    destruct (existsb _ _); discriminate. }
  assert (Hnot : actions_entry action <> action_inherited).
  { unfold actions_entry.
    repeat (destruct (String.eqb action _); [discriminate|]).
    destruct (existsb (String.eqb action) object_prototype_names) eqn:Ex;
      [|discriminate].
    exfalso. apply Hproto. apply existsb_exists in Ex as (x & Hx & Ex).
    apply String.eqb_eq in Ex. subst. exact Hx. }
  split; [|split].
  - unfold completion, mediaControl.
    destruct (actions_entry action) as [s| |]; [|contradiction|reflexivity].
    apply callService_commanded.
  - unfold mediaControl.
    destruct (actions_entry action) as [s| |] eqn:E; [|contradiction|].
    + match goal with |- context [callService ?d ?s ?x] =>
        destruct (callService_commanded w d s x) as (_ & Hm) end.
      eexists. split; [exact Hm|].
      destruct (_hass (this w)); cbn [List.length In]; (split; [lia|]);
        [intros c [<-|[]]|intros c []].
      cbn. split; [reflexivity|]. split; [apply Hservice; reflexivity|reflexivity].
    + exists []. split; [apply commanded_nil|]. split; [cbn; lia|intros c []].
  - intros Hfour. unfold mediaControl, actions_entry in *.
    cbn [In] in Hfour.
    destruct (String.eqb_spec action "play"); [exfalso; apply Hfour; subst; auto 6|].
    destruct (String.eqb_spec action "pause"); [exfalso; apply Hfour; subst; auto 6|].
    destruct (String.eqb_spec action "next"); [exfalso; apply Hfour; subst; auto 6|].
    destruct (String.eqb_spec action "prev"); [exfalso; apply Hfour; subst; auto 6|].
    destruct (existsb (String.eqb action) object_prototype_names);
      [contradiction|reflexivity].
Qed.

Lemma mediaControl_calls_witness :
  after (mediaControl "media_player.tv" "stop") home = home.
Proof.
  destruct (mediaControl_calls home "media_player.tv" "stop") as (_ & _ & H).
  - cbn. intuition discriminate.
  - apply H. cbn. intuition discriminate.
Defined.

Lemma mediaControl_service w h entityId action service :
  _hass (this w) = Some h ->
  actions_entry action = action_service service ->
  after (mediaControl entityId action) w
  = world_with_calls w (service_calls w ++ [media_call entityId service]).
Proof.
  intros Hh E. unfold after, mediaControl. rewrite E.
  rewrite (callService_with_hass w h _ _ _ Hh). reflexivity.
Qed.

(** X7: each button of a media tile, on a card with a host object, makes
    exactly one call for the tile's identifier: the first
    [media_previous_track], the last [media_next_track], and the middle
    one [media_pause] when the state is "playing" and [media_play] in
    every other state. *)
Theorem media_tile_buttons (w : World) (h : Hass) (entity : EntityState) :
  _hass (this w) = Some h ->
  let tile := renderMediaDevice entity in
  let called := fun btn service =>
    after (click_media_btn btn) w
    = world_with_calls w (service_calls w ++ [media_call (entity_id entity) service]) in
  called (prev_btn tile) "media_previous_track"
  /\ called (next_btn tile) "media_next_track"
  /\ (state entity = "playing" -> called (play_btn tile) "media_pause")
  /\ (state entity <> "playing" -> called (play_btn tile) "media_play").
Proof.
  intros Hh tile called. subst called tile. cbv beta.
  unfold click_media_btn, renderMediaDevice.
  cbn [prev_btn next_btn play_btn data_media data_action].
  split; [|split; [|split]].
  - apply (mediaControl_service w h); [exact Hh|reflexivity].
  - apply (mediaControl_service w h); [exact Hh|reflexivity].
  - intros ->. apply (mediaControl_service w h); [exact Hh|reflexivity].
  - intros Hs. destruct (String.eqb_spec (state entity) "playing"); [contradiction|].
    apply (mediaControl_service w h); [exact Hh|reflexivity].
Qed.

Lemma media_tile_buttons_witness :
  after (click_media_btn (play_btn (renderMediaDevice
           {| entity_id := "media_player.tv"; state := "playing";
              attributes := {| temperature := None |} |}))) home
  = world_with_calls home [media_call "media_player.tv" "media_pause"].
Proof.
  destruct (media_tile_buttons home home_hass
              {| entity_id := "media_player.tv"; state := "playing";
                 attributes := {| temperature := None |} |} eq_refl)
    as (_ & _ & H & _).
  apply H. reflexivity.
Defined.

Section Picker.

Lemma offered_before_dot domain entityId :
  no_dot domain = true ->
  offered domain entityId = true ->
  Str.before_dot entityId = domain.
Proof.
  unfold offered, no_dot. revert entityId.
  induction domain as [|a d IH]; intros [|b i] Hd H.
  - discriminate H.
  - change (String.prefix "." (String b i) = true) in H. cbn [String.prefix] in H.
    destruct (ascii_dec "."%char b) as [<-|]; [reflexivity|discriminate H].
  - discriminate H.
  - change (String.prefix (String a (String.append d ".")) (String b i) = true) in H.
    cbn [String.prefix] in H.
    destruct (ascii_dec a b) as [<-|]; [|discriminate H].
    cbn in Hd. apply andb_prop in Hd as [Ha Hd].
    cbn [Str.before_dot]. apply negb_true_iff in Ha. rewrite Ha.
    f_equal. apply IH; assumption.
Qed.

Lemma getCategoryDomain_no_dot category : no_dot (getCategoryDomain category) = true.
Proof. destruct category; reflexivity. Qed.

Lemma getCategoryDomain_inj c1 c2 :
  getCategoryDomain c1 = getCategoryDomain c2 -> c1 = c2.
Proof. destruct c1, c2; cbn; intros H; try reflexivity; discriminate H. Qed.

End Picker.

(** X9: the picker of a category offers an identifier only when the part
    before its first dot is the domain of the category.  So no identifier
    is offered by the pickers of two categories, and [toggleEntity] on an
    offered identifier that has a live state sets the mode for the climate
    category and makes the generic toggle call for every other one. *)
Theorem picker_offers_one_domain (category : Category) (entityId : string) :
  offered (getCategoryDomain category) entityId = true ->
  Str.before_dot entityId = getCategoryDomain category
  /\ (forall category',
        offered (getCategoryDomain category') entityId = true -> category' = category)
  /\ (forall w st,
        resolved (this w) entityId = Some st ->
        after (toggleEntity entityId) w
        = world_with_calls w
            (service_calls w ++ [toggle_call_of category entityId st])).
Proof.
  intros H.
  pose proof (offered_before_dot _ _ (getCategoryDomain_no_dot category) H) as Hd.
  split; [exact Hd|]. split.
  - intros c' H'.
    pose proof (offered_before_dot _ _ (getCategoryDomain_no_dot c') H') as Hd'.
    apply getCategoryDomain_inj. congruence.
  - intros w st Hst. unfold after.
    destruct (resolved_has_hass _ _ _ Hst) as (h & Hh).
    rewrite (toggleEntity_found w h entityId (live_state st) Hh
               (looked_up_live _ _ _ Hst)), Hd.
    destruct category; reflexivity.
Qed.

Lemma picker_offers_one_domain_witness :
  after (toggleEntity "climate.living") home
  = world_with_calls home [hvac_mode_call "climate.living" "heat_cool"].
Proof.
  destruct (picker_offers_one_domain cat_climate "climate.living" eq_refl)
    as (_ & _ & H).
  apply (H home (entity "climate.living" "off" (Some 21%float))). reflexivity.
Defined.

Section Trim.

Lemma trimStart_blank s :
  Str.all_chars Str.is_white s = true -> trimStart s = EmptyString.
Proof.
  induction s as [|c s IH]; [reflexivity|]. cbn.
  destruct (Str.is_white c); [exact IH|discriminate].
Qed.

(** What is left of a string that is not blank starts with a character
    that is not white. *)
Lemma trimStart_not_blank s :
  Str.all_chars Str.is_white s = false ->
  exists c r, trimStart s = String c r /\ Str.is_white c = false.
Proof.
  induction s as [|c s IH]; [discriminate|]. cbn.
  destruct (Str.is_white c) eqn:E; [exact IH|]. intros _. eauto.
Qed.

Lemma trimEnd_head c r :
  Str.is_white c = false -> exists r', trimEnd (String c r) = String c r'.
Proof.
  intros E. cbn [trimEnd]. destruct (trimEnd r); rewrite ?E; eauto.
Qed.

Lemma trimEnd_twice s : trimEnd (trimEnd s) = trimEnd s.
Proof.
  induction s as [|c s IH]; [reflexivity|]. cbn [trimEnd].
  destruct (trimEnd s) as [|c' r'] eqn:E.
  - destruct (Str.is_white c) eqn:Ec; [reflexivity|]. cbn. rewrite Ec. reflexivity.
  - change (trimEnd (String c (String c' r')))
      with (match trimEnd (String c' r') with
            | EmptyString => if Str.is_white c then EmptyString else String c EmptyString
            | r'' => String c r''
            end).
    rewrite IH. reflexivity.
Qed.

Lemma trim_blank s :
  Str.all_chars Str.is_white s = true -> trim s = EmptyString.
Proof. intros H. unfold trim. rewrite trimStart_blank by exact H. reflexivity. Qed.

Lemma trim_not_blank s :
  Str.all_chars Str.is_white s = false ->
  exists c r, trim s = String c r /\ Str.is_white c = false.
Proof.
  intros H. destruct (trimStart_not_blank s H) as (c & r & E & Hc).
  unfold trim. rewrite E. destruct (trimEnd_head c r Hc) as (r' & ->). eauto.
Qed.

End Trim.

(** X10: the button of the room dialog.  A text of white space only (the
    empty text too) changes nothing: no room is added, nothing is saved
    and the dialog stays.  Any other text adds a room whose name is the
    text without the white space of its two ends, the identifier being
    derived from that name, makes it the active room and closes the
    dialog. *)
Theorem save_room_button (copy : Copy) (w : World) (rs : list Room) (value : string) :
  _rooms (this w) = RoomList rs ->
  let m := click_save_room_btn copy (Some value) in
  let name' := trim value in
  (Str.all_chars Str.is_white value = true ->
     completion m w = Normal tt /\ after m w = w)
  /\ (Str.all_chars Str.is_white value = false ->
        completion m w = Normal tt
        /\ _rooms (this (after m w))
           = RoomList (rs ++ [empty_room (slug name') name' (new_room_icon copy)])
        /\ _activeRoom (this (after m w)) = Z.of_nat (List.length rs)
        /\ _modal (this (after m w)) = None
        /\ trimStart name' = name' /\ trimEnd name' = name'
        /\ name' <> EmptyString).
Proof.
  intros Hrs m name'. subst m. unfold click_save_room_btn.
  cbn [fmap option_fmap option_map]. fold name'. split.
  - intros Hb. subst name'. rewrite (trim_blank value Hb). cbn. auto.
  - intros Hb. destruct (trim_not_blank value Hb) as (c & r & E & Hc).
    fold name' in E. rewrite E. cbn [Str.truthy]. rewrite <- E.
    destruct (addRoom_run copy name' w rs Hrs) as (Hc1 & Ht & _ & _).
    cbv zeta in Ht.
    set (w1 := after (addRoom copy name') w) in *.
    assert (Ea : addRoom copy name' w = (Normal tt, w1)).
    { unfold w1, after, completion in *.
      destruct (addRoom copy name' w) as [x y]; cbn [fst snd] in *. congruence. }
    set (w2 := world_with_this w1 (card_with_modal (this w1) None (_modalData (this w1)))).
    assert (Hrs2 : _rooms (this w2)
                   = RoomList (rs ++ [empty_room (slug name') name' (new_room_icon copy)])).
    { unfold w2. cbn [this world_with_this card_with_modal _rooms]. rewrite Ht. reflexivity. }
    assert (Ha2 : _activeRoom (this w2) = Z.of_nat (List.length rs)).
    { unfold w2. cbn [this world_with_this card_with_modal _activeRoom].
      rewrite Ht. reflexivity. }
    destruct (render_run w2 _ (empty_room (slug name') name' (new_room_icon copy)) Hrs2)
      as (Er & Ht3 & _).
    { rewrite Ha2. rewrite nth_Z_nat by lia. rewrite Nat2Z.id.
      apply list_lookup_middle. reflexivity. }
    unfold completion, after.
    rewrite (bind_normal _ _ _ _ _ Ea).
    assert (Em : (let* c0 := read_this in
                  write_this (card_with_modal c0 None (_modalData c0))) w1
                 = (Normal tt, w2)) by reflexivity.
    rewrite (bind_normal _ _ _ _ _ Em). rewrite Er. cbn [fst snd]. rewrite Ht3.
    split; [reflexivity|]. split; [exact Hrs2|]. split; [exact Ha2|].
    split; [reflexivity|].
    split; [rewrite E; cbn; rewrite Hc; reflexivity|].
    split; [apply trimEnd_twice|]. rewrite E. discriminate.
Qed.

Lemma save_room_button_witness :
  _rooms (this (after (click_save_room_btn dist_copy (Some "  Guest room ")) garden_world))
  = RoomList [garden; empty_room "guest_room" "Guest room" None]
  /\ after (click_save_room_btn dist_copy (Some "   ")) garden_world = garden_world.
Proof.
  destruct (save_room_button dist_copy garden_world [garden] "  Guest room " eq_refl)
    as (_ & H).
  destruct (save_room_button dist_copy garden_world [garden] "   " eq_refl)
    as (H' & _).
  split.
  - apply H. reflexivity.
  - apply H'. reflexivity.
Defined.

Section PickerClick.

Lemma removed_absent e b : ~ In e b -> removed e b = b.
Proof.
  intros H. unfold removed. induction b as [|x b IH]; [reflexivity|].
  cbn [List.filter]. destruct (String.eqb_spec x e) as [->|_].
  - exfalso. apply H. left. reflexivity.
  - cbn [negb]. rewrite IH; [reflexivity|]. intros Hin. apply H. right. exact Hin.
Qed.

Lemma removed_app e b1 b2 : removed e (b1 ++ b2) = removed e b1 ++ removed e b2.
Proof. unfold removed. apply List.filter_app. Qed.

Lemma removed_single e : removed e [e] = [].
Proof. unfold removed. cbn. rewrite String.eqb_refl. reflexivity. Qed.

Lemma click_entity_item_run w category e :
  has_active_room (this w) ->
  exists w1,
    click_entity_item e category w = (Normal tt, w1)
    /\ has_active_room (this w1)
    /\ _activeRoom (this w1) = _activeRoom (this w)
    /\ bucket_ids w1 category
       = (if includes e (bucket_ids w category)
          then removed e (bucket_ids w category)
          else bucket_ids w category ++ [e])
    /\ service_calls w1 = service_calls w.
Proof.
  intros Hw. pose proof Hw as (rs & Hrs & Ha).
  destruct (nth_Z_in_range rs _ Ha) as (room & Hroom).
  assert (Hb : active_bucket (this w) category = bucket room category).
  { unfold active_bucket. rewrite Hrs, Hroom. reflexivity. }
  unfold click_entity_item.
  rewrite (bind_normal _ _ _ _ _ (active_room_found w rs room Hrs Hroom)).
  cbn [snd]. unfold bucket_ids at 2 3 4. rewrite Hb.
  destruct (includes e (default [] (bucket room category))) eqn:Hin.
  - destruct (removeEntityFromRoom_run w category e Hw) as (w1 & E & H1 & H2 & H3 & H4).
    exists w1. split; [exact E|]. split; [exact H1|]. split; [exact H2|].
    split; [|exact H4]. unfold bucket_ids. rewrite H3, Hb.
    destruct (bucket room category); reflexivity.
  - destruct (addEntityToRoom_run w category e Hw) as (w1 & E & H1 & H2 & H3 & H4).
    exists w1. split; [exact E|]. split; [exact H1|]. split; [exact H2|].
    split; [|exact H4]. unfold bucket_ids. rewrite H3, Hb.
    unfold added. rewrite Hin. reflexivity.
Qed.

End PickerClick.

(** X11: a click on an item of the picker flips the membership of that
    entity in the bucket of the active room and of no other entity: a
    member is taken out, all its occurrences at once, and any other
    identifier is put last.  No service is called.  Two clicks on an
    entity that was not a member give back the very same list. *)
Theorem picker_click_flips_membership (w : World) (category : Category) (e : string) :
  has_active_room (this w) ->
  let m := click_entity_item e category in
  let b := bucket_ids w category in
  let b' := bucket_ids (after m w) category in
  completion m w = Normal tt
  /\ has_active_room (this (after m w))
  /\ _activeRoom (this (after m w)) = _activeRoom (this w)
  /\ (In e b' <-> ~ In e b)
  /\ (forall x, x <> e -> In x b' <-> In x b)
  /\ (In e b -> b' = removed e b)
  /\ (~ In e b -> b' = b ++ [e])
  /\ (~ In e b -> bucket_ids (after (m ;; m) w) category = b)
  /\ service_calls (after m w) = service_calls w.
Proof.
  intros Hw m b b'.
  destruct (click_entity_item_run w category e Hw) as (w1 & E & H1 & H2 & H3 & H4).
  assert (Ew : after m w = w1) by (unfold after, m; rewrite E; reflexivity).
  assert (Hb' : b' = if includes e b then removed e b else b ++ [e]).
  { unfold b'. rewrite Ew. exact H3. }
  split; [unfold completion, m; rewrite E; reflexivity|].
  rewrite Ew. split; [exact H1|]. split; [exact H2|].
  destruct (includes e b) eqn:Hin.
  - apply includes_In in Hin. split; [|split; [|split; [|split; [|split]]]].
    + rewrite Hb'. rewrite removed_In. split; [intros [_ F]; congruence|tauto].
    + intros x Hx. rewrite Hb'. rewrite removed_In. tauto.
    + intros _. exact Hb'.
    + tauto.
    + tauto.
    + exact H4.
  - apply includes_not_In in Hin. split; [|split; [|split; [|split; [|split]]]].
    + rewrite Hb'. rewrite in_app_iff. cbn. tauto.
    + intros x Hx. rewrite Hb'. rewrite in_app_iff. cbn.
      split; [intros [H|[H|[]]]; [exact H|congruence]|tauto].
    + tauto.
    + intros _. exact Hb'.
    + intros _.
      destruct (click_entity_item_run w1 category e H1) as (w2 & E2 & _ & _ & H32 & _).
      unfold after. rewrite (bind_normal _ _ _ _ _ E). fold m in E2. rewrite E2.
      cbn [snd]. rewrite H32. fold b' in Hb'. unfold b' in Hb'. rewrite Ew in Hb'.
      rewrite Hb'.
      assert (Hi : includes e (b ++ [e]) = true).
      { apply includes_In. apply in_app_iff. right. left. reflexivity. }
      rewrite Hi. rewrite removed_app, removed_single, removed_absent by exact Hin.
      apply app_nil_r.
    + exact H4.
Qed.

Lemma picker_click_flips_membership_witness :
  bucket_ids (after (click_entity_item "light.gate" cat_lights) garden_world) cat_lights
  = bucket_ids garden_world cat_lights ++ ["light.gate"].
Proof.
  apply (picker_click_flips_membership garden_world cat_lights "light.gate").
  - apply garden_world_has_active_room.
  - vm_compute. intros [H|[H|[]]]; discriminate H.
Defined.

Section LoadCases.

Variable copy : Copy.

(** The storage is denied to the page. *)
Lemma loadRoomConfig_denied w :
  Storage.accessible (localStorage w) = false ->
  this (after (loadRoomConfig copy) w)
  = card_with_rooms (this w) (RoomList (getDefaultRooms copy))
  /\ localStorage (after (loadRoomConfig copy) w) = localStorage w
  /\ console (after (loadRoomConfig copy) w)
     = console w ++ ["Glassmorphism Dashboard: Error loading room config:"].
Proof.
  destruct w as [c st con calls n]. cbn [localStorage]. intros Ha.
  unfold after, loadRoomConfig, try_catch, bind at 1, read_this. cbn.
  unfold bind at 1, localStorage_getItem, Storage.getItem. cbn.
  rewrite Ha. cbn. auto.
Qed.

(** A blob that is not the empty text. *)
Lemma loadRoomConfig_present w s :
  Storage.accessible (localStorage w) = true ->
  Storage.items (localStorage w) !! storage_key (_config (this w)) = Some s ->
  Str.truthy s = true ->
  this (after (loadRoomConfig copy) w)
  = card_with_rooms (this w)
      match Json.parse s with
      | Some v => rooms_of_json v
      | None => RoomList (getDefaultRooms copy)
      end
  /\ localStorage (after (loadRoomConfig copy) w) = localStorage w.
Proof.
  destruct w as [c st con calls n]. cbn [this localStorage]. intros Ha Hk Ht.
  unfold after, loadRoomConfig, try_catch, bind at 1, read_this. cbn.
  unfold bind at 1, localStorage_getItem, Storage.getItem. cbn.
  rewrite Ha, Hk, Ht. cbv iota.
  unfold JSON_parse. destruct (Json.parse s); cbn; auto.
Qed.

(** No blob, or the empty text. *)
Lemma loadRoomConfig_absent w :
  Storage.accessible (localStorage w) = true ->
  Str.truthy (default EmptyString
                (Storage.items (localStorage w) !! storage_key (_config (this w))))
  = false ->
  after (loadRoomConfig copy) w
  = after saveRoomConfig
      (world_with_this w (card_with_rooms (this w) (RoomList (getDefaultRooms copy)))).
Proof.
  intros Ha Hk.
  set (w0 := world_with_this w (card_with_rooms (this w) (RoomList (getDefaultRooms copy)))).
  assert (E0 : set_rooms (RoomList (getDefaultRooms copy)) w = (Normal tt, w0))
    by apply set_rooms_run.
  destruct (saveRoomConfig_run w0) as (Es & _).
  unfold after at 1. unfold loadRoomConfig, try_catch.
  rewrite (bind_normal read_this _ w (this w) w eq_refl).
  assert (Eg : localStorage_getItem (storage_key (_config (this w))) w
               = (Normal (Storage.items (localStorage w) !! storage_key (_config (this w))), w)).
  { unfold localStorage_getItem, Storage.getItem. rewrite Ha. reflexivity. }
  rewrite (bind_normal _ _ _ _ _ Eg).
  destruct (Storage.items (localStorage w) !! storage_key (_config (this w))) as [s|];
    cbn [default] in Hk.
  - unfold Datatypes.id in Hk. rewrite Hk.
    rewrite (bind_normal _ _ _ _ _ E0). rewrite Es. reflexivity.
  - rewrite (bind_normal _ _ _ _ _ E0). rewrite Es. reflexivity.
Qed.

End LoadCases.

Section LoadTwice.

Variable copy : Copy.

Lemma loadRoomConfig_config w :
  _config (this (after (loadRoomConfig copy) w)) = _config (this w).
Proof. apply (only_edits_loadRoomConfig copy w). Qed.

Lemma loadRoomConfig_run w :
  loadRoomConfig copy w = (Normal tt, after (loadRoomConfig copy) w).
Proof.
  pose proof (loadRoomConfig_never_throws copy w) as H.
  unfold completion, after in *.
  destruct (loadRoomConfig copy w) as [x y]. cbn [fst snd] in *. congruence.
Qed.

Lemma loadRoomConfig_absent_twice w :
  Storage.accessible (localStorage w) = true ->
  Str.truthy (default EmptyString
                (Storage.items (localStorage w) !! storage_key (_config (this w))))
  = false ->
  let w1 := after (loadRoomConfig copy) w in
  _rooms (this w1) <> Undefined
  /\ _rooms (this (after (loadRoomConfig copy) w1)) = _rooms (this w1)
  /\ localStorage (after (loadRoomConfig copy) w1) = localStorage w1.
Proof.
  intros Ha Hk w1. pose proof (loadRoomConfig_config w) as Hcfg. fold w1 in Hcfg.
  pose proof (loadRoomConfig_absent copy w Ha Hk) as E1. fold w1 in E1.
  set (w0 := world_with_this w (card_with_rooms (this w) (RoomList (getDefaultRooms copy))))
    in E1.
  destruct (saveRoomConfig_run w0) as (_ & Ht0 & _).
  pose proof (saveRoomConfig_store w0) as Hs0. rewrite <- E1 in Ht0, Hs0.
  assert (Hr1 : _rooms (this w1) = RoomList (getDefaultRooms copy)).
  { rewrite Ht0. reflexivity. }
  rewrite Hr1. split; [discriminate|].
  change (storage_key (_config (this w0))) with (storage_key (_config (this w))) in Hs0.
  change (_rooms (this w0)) with (RoomList (getDefaultRooms copy)) in Hs0.
  change (localStorage w0) with (localStorage w) in Hs0.
  destruct (Storage.setItem (storage_key (_config (this w)))
              (JSON_stringify (RoomList (getDefaultRooms copy))) (localStorage w))
    as [st'|e] eqn:Eset.
  - destruct (setItem_frame _ _ _ _ Eset) as ((Hacc & _) & Hitem).
    destruct (loadRoomConfig_present copy w1 (JSON_stringify (RoomList (getDefaultRooms copy))))
      as (H3 & H4).
    { rewrite Hs0, Hacc. exact Ha. }
    { rewrite Hs0, Hcfg. exact Hitem. }
    { reflexivity. }
    rewrite H3. rewrite parse_stringify_rooms, rooms_of_json_to_json.
    split; [reflexivity|exact H4].
  - pose proof (loadRoomConfig_absent copy w1) as E2.
    rewrite Hs0, Hcfg in E2. specialize (E2 Ha Hk).
    set (w2 := world_with_this w1 _) in E2.
    destruct (saveRoomConfig_run w2) as (_ & Ht2 & _).
    pose proof (saveRoomConfig_store w2) as Hs2.
    rewrite E2. rewrite Ht2, Hs2.
    change (storage_key (_config (this w2))) with (storage_key (_config (this w1))).
    change (_rooms (this w2)) with (RoomList (getDefaultRooms copy)).
    change (localStorage w2) with (localStorage w1).
    rewrite Hcfg, Hs0, Eset. split; reflexivity.
Qed.

(** The rooms and the store after a second load are those after the
    first. *)
Lemma loadRoomConfig_twice w :
  let w1 := after (loadRoomConfig copy) w in
  _rooms (this w1) <> Undefined
  /\ _rooms (this (after (loadRoomConfig copy) w1)) = _rooms (this w1)
  /\ localStorage (after (loadRoomConfig copy) w1) = localStorage w1.
Proof.
  intros w1. pose proof (loadRoomConfig_config w) as Hcfg. fold w1 in Hcfg.
  set (key := storage_key (_config (this w))) in *.
  destruct (Storage.accessible (localStorage w)) eqn:Ha.
  - destruct (Storage.items (localStorage w) !! key) as [s|] eqn:Hk.
    + destruct (Str.truthy s) eqn:Ht.
      * destruct (loadRoomConfig_present copy w s Ha Hk Ht) as (H1 & H2).
        fold w1 in H1, H2.
        destruct (loadRoomConfig_present copy w1 s) as (H3 & H4).
        { rewrite H2. exact Ha. }
        { rewrite H2, Hcfg. exact Hk. }
        { exact Ht. }
        rewrite H3, H1. cbn [_rooms card_with_rooms].
        split; [|split; [reflexivity|exact H4]].
        destruct (Json.parse s) as [v|]; [|discriminate].
        unfold rooms_of_json. destruct v; try discriminate.
        destruct (as_rooms _); discriminate.
      * apply (loadRoomConfig_absent_twice w).
        -- exact Ha.
        -- fold key. rewrite Hk. exact Ht.
    + apply (loadRoomConfig_absent_twice w).
      * exact Ha.
      * fold key. rewrite Hk. reflexivity.
  - destruct (loadRoomConfig_denied copy w Ha) as (H1 & H2 & _).
    fold w1 in H1, H2.
    destruct (loadRoomConfig_denied copy w1) as (H3 & H4 & _).
    { rewrite H2. exact Ha. }
    rewrite H3, H1. cbn [_rooms card_with_rooms].
    split; [discriminate|]. split; [reflexivity|exact H4].
Qed.

End LoadTwice.

(** X12: loading the configuration settles.  From every world
    [loadRoomConfig] leaves a rooms value, and a second load right after
    the first completes too and changes neither the rooms nor the store.
    Where the storage is denied to the page the default rooms are set, the
    store is left alone and the error is logged once.  A blob that is the
    empty text counts as no blob: the default rooms are set and, when the
    store takes them, written over it. *)
Theorem loadRoomConfig_settles (copy : Copy) (w : World) :
  let load := loadRoomConfig copy in
  let w1 := after load w in
  let key := storage_key (_config (this w)) in
  completion (load ;; load) w = Normal tt
  /\ _rooms (this w1) <> Undefined
  /\ _rooms (this (after (load ;; load) w)) = _rooms (this w1)
  /\ localStorage (after (load ;; load) w) = localStorage w1
  /\ (Storage.accessible (localStorage w) = false ->
        _rooms (this w1) = RoomList (getDefaultRooms copy)
        /\ localStorage w1 = localStorage w
        /\ console w1
           = console w ++ ["Glassmorphism Dashboard: Error loading room config:"])
  /\ (Storage.accessible (localStorage w) = true ->
      Storage.items (localStorage w) !! key = Some EmptyString ->
      accepts (localStorage w) key (JSON_stringify (RoomList (getDefaultRooms copy))) ->
        _rooms (this w1) = RoomList (getDefaultRooms copy)
        /\ Storage.items (localStorage w1) !! key
           = Some (JSON_stringify (RoomList (getDefaultRooms copy)))).
Proof.
  intros load w1 key.
  destruct (loadRoomConfig_twice copy w) as (H1 & H2 & H3). fold w1 load in H1, H2, H3.
  assert (E : after (load ;; load) w = after load w1).
  { unfold after. unfold load at 1.
    rewrite (bind_normal _ _ _ _ _ (loadRoomConfig_run copy w)). reflexivity. }
  split.
  { unfold completion. unfold load at 1.
    rewrite (bind_normal _ _ _ _ _ (loadRoomConfig_run copy w)).
    apply loadRoomConfig_never_throws. }
  split; [exact H1|]. rewrite E. split; [exact H2|]. split; [exact H3|]. split.
  - intros Ha. destruct (loadRoomConfig_denied copy w Ha) as (Ht & Hs & Hc).
    fold load w1 in Ht, Hs, Hc. rewrite Ht. auto.
  - intros Ha Hk Hacc.
    pose proof (loadRoomConfig_absent copy w Ha) as E1. fold key in E1.
    rewrite Hk in E1. specialize (E1 eq_refl). fold load w1 in E1.
    set (w0 := world_with_this w _) in E1.
    destruct (saveRoomConfig_run w0) as (_ & Ht0 & _).
    destruct (saveRoomConfig_in_sync w0 Hacc) as (Hsync & _).
    unfold in_sync in Hsync. rewrite <- E1 in Ht0, Hsync.
    rewrite Ht0 in Hsync |- *. split; [reflexivity|exact Hsync].
Qed.

Section SlugFacts.

Lemma lower_char_twice c : Str.lower_char (Str.lower_char c) = Str.lower_char c.
Proof. destruct c as [[] [] [] [] [] [] [] []]; reflexivity. Qed.

Lemma slug_char_lower c : Str.is_slug_char c = true -> Str.lower_char c = c.
Proof.
  destruct c as [[] [] [] [] [] [] [] []]; intros H;
    first [reflexivity | discriminate H].
Qed.

Lemma slug_char_not_white c : Str.is_slug_char c = true -> Str.is_white c = false.
Proof.
  destruct c as [[] [] [] [] [] [] [] []]; intros H;
    first [reflexivity | discriminate H].
Qed.

Lemma toLowerCase_twice s : Str.toLowerCase (Str.toLowerCase s) = Str.toLowerCase s.
Proof.
  induction s as [|c s IH]; [reflexivity|].
  cbn [Str.toLowerCase]. rewrite lower_char_twice, IH. reflexivity.
Qed.

Lemma toLowerCase_length s : String.length (Str.toLowerCase s) = String.length s.
Proof. induction s as [|c s IH]; [reflexivity|]. cbn. rewrite IH. reflexivity. Qed.

Lemma replace_white_runs_length b s :
  (String.length (Str.replace_white_runs b s) <= String.length s)%nat.
Proof.
  revert b. induction s as [|c s IH]; intros b; [reflexivity|].
  cbn [Str.replace_white_runs String.length].
  destruct (Str.is_white c); [destruct b|]; cbn [String.length].
  - specialize (IH true). lia.
  - specialize (IH true). lia.
  - specialize (IH false). lia.
Qed.

Lemma strip_non_slug_length s :
  (String.length (Str.strip_non_slug s) <= String.length s)%nat.
Proof.
  induction s as [|c s IH]; [reflexivity|].
  cbn [Str.strip_non_slug String.length].
  destruct (Str.is_slug_char c); cbn [String.length]; lia.
Qed.

(** A text of a-z, 0-9 and underscore is its own identifier. *)
Lemma slug_fixed s : Str.all_chars Str.is_slug_char s = true -> slug s = s.
Proof.
  unfold slug. induction s as [|c s IH]; [reflexivity|].
  cbn [Str.all_chars]. intros H. apply andb_true_iff in H as [Hc Hs].
  cbn [Str.toLowerCase]. rewrite (slug_char_lower c Hc).
  cbn [Str.replace_white_runs]. rewrite (slug_char_not_white c Hc).
  cbn [Str.strip_non_slug]. rewrite Hc, (IH Hs). reflexivity.
Qed.

End SlugFacts.

(** X13: the identifier that [addRoom] derives from a name is a normal
    form.  Deriving it again from the identifier changes nothing, the
    case of the letters of the name does not count, the identifier is
    never longer than the name, and the names that are their own
    identifier are exactly the texts of a-z, 0-9 and underscore. *)
Theorem slug_is_a_normal_form (name : string) :
  slug (slug name) = slug name
  /\ slug (Str.toLowerCase name) = slug name
  /\ (String.length (slug name) <= String.length name)%nat
  /\ (slug name = name <-> Str.all_chars Str.is_slug_char name = true).
Proof.
  split; [apply slug_fixed, slug_chars|].
  split; [unfold slug; rewrite toLowerCase_twice; reflexivity|].
  split.
  - unfold slug.
    pose proof (strip_non_slug_length
                  (Str.replace_white_runs false (Str.toLowerCase name))).
    pose proof (replace_white_runs_length false (Str.toLowerCase name)).
    pose proof (toLowerCase_length name). lia.
  - split; [|apply slug_fixed].
    intros E. rewrite <- E. apply slug_chars.
Qed.

(** X14: [addRoom] does not look at the identifiers of the rooms that are
    there.  A name whose identifier a room already has is added all the
    same, so that two rooms then share the identifier; and adding one name
    twice leaves two equal rooms at the end, the second of them active. *)
Theorem addRoom_shares_identifiers (copy : Copy) (w : World) (rs : list Room)
    (title : string) :
  _rooms (this w) = RoomList rs ->
  let room := empty_room (slug title) title (new_room_icon copy) in
  (In (slug title) (map id rs) ->
     exists rs', _rooms (this (after (addRoom copy title) w)) = RoomList rs'
                 /\ List.length rs' = S (List.length rs)
                 /\ ~ List.NoDup (map id rs'))
  /\ completion (addRoom copy title ;; addRoom copy title) w = Normal tt
  /\ _rooms (this (after (addRoom copy title ;; addRoom copy title) w))
     = RoomList (rs ++ [room; room])
  /\ _activeRoom (this (after (addRoom copy title ;; addRoom copy title) w))
     = Z.of_nat (List.length rs) + 1.
Proof.
  intros Hrs room.
  destruct (addRoom_run copy title w rs Hrs) as (Hc & Ht & _). cbv zeta in Ht.
  fold room in Ht.
  set (w1 := after (addRoom copy title) w) in *.
  assert (E1 : addRoom copy title w = (Normal tt, w1)).
  { unfold w1, after, completion in *.
    destruct (addRoom copy title w) as [x y]; cbn [fst snd] in *. congruence. }
  assert (Hrs1 : _rooms (this w1) = RoomList (rs ++ [room])).
  { rewrite Ht. reflexivity. }
  split.
  - intros Hin. exists (rs ++ [room]). split; [exact Hrs1|].
    split; [rewrite length_app; cbn; lia|].
    rewrite map_app. cbn [map]. intros Hnd.
    apply List.NoDup_remove_2 in Hnd. apply Hnd.
    rewrite app_nil_r. exact Hin.
  - destruct (addRoom_run copy title w1 _ Hrs1) as (Hc2 & Ht2 & _). cbv zeta in Ht2.
    fold room in Ht2. unfold completion, after in *.
    rewrite (bind_normal _ _ _ _ _ E1). split; [exact Hc2|]. rewrite Ht2.
    cbn [_rooms _activeRoom card_with_activeRoom card_with_rooms].
    rewrite <- app_assoc. cbn [app]. split; [reflexivity|].
    rewrite length_app. cbn [List.length]. lia.
Qed.

Lemma addRoom_shares_identifiers_witness :
  _rooms (this (after (addRoom dist_copy "Attic" ;; addRoom dist_copy "Attic") garden_world))
  = RoomList [garden; empty_room "attic" "Attic" None; empty_room "attic" "Attic" None].
Proof.
  apply (addRoom_shares_identifiers dist_copy garden_world [garden] "Attic").
  reflexivity.
Defined.

Section Tabs.

Lemma click_room_tab_run w rs index :
  _rooms (this w) = RoomList rs ->
  0 <= index < Z.of_nat (List.length rs) ->
  let w1 := world_with_this w (card_with_activeRoom (this w) index) in
  click_room_tab index w = (Normal tt, after render w1)
  /\ this (after render w1) = this w1
  /\ localStorage (after render w1) = localStorage w
  /\ console (after render w1) = console w
  /\ service_calls (after render w1) = service_calls w.
Proof.
  intros Hrs Hi w1. unfold click_room_tab.
  rewrite (bind_normal _ _ _ _ _ (set_activeRoom_run index w)). fold w1.
  destruct (nth_Z_in_range rs index Hi) as (room & Hroom).
  destruct (render_run w1 rs room Hrs Hroom) as (Er & Ht & Hs & Hc & Hcalls).
  rewrite Er. auto.
Qed.

Lemma click_tab_remove_run w rs index confirmed :
  _rooms (this w) = RoomList rs ->
  0 <= index < Z.of_nat (List.length rs) ->
  click_tab_remove index confirmed w
  = if confirmed then removeRoom index w else (Normal tt, w).
Proof.
  intros Hrs Hi. unfold click_tab_remove.
  rewrite (bind_normal _ _ _ rs w (rooms_array_list w rs Hrs)).
  destruct (nth_Z_in_range rs index Hi) as (room & ->).
  destruct confirmed; reflexivity.
Qed.

End Tabs.

(** X15: the tabs of the rooms.  On a card with an active room, a click
    on the tab of a room makes that room the active one and changes
    neither the rooms, nor the store, nor what the host was asked.  The
    remove control of a tab is shown in edit mode and with more than one
    room only; clicked where it is shown and confirmed, it always removes
    the room of its tab and no other, and leaves an active room; clicked
    and not confirmed, it changes nothing. *)
Theorem room_tabs (w : World) (rs : list Room) (index : Z) :
  _rooms (this w) = RoomList rs ->
  0 <= _activeRoom (this w) < Z.of_nat (List.length rs) ->
  0 <= index < Z.of_nat (List.length rs) ->
  let pick := click_room_tab index in
  let remove := click_tab_remove index true in
  (completion pick w = Normal tt
   /\ this (after pick w) = card_with_activeRoom (this w) index
   /\ active_room_of (this (after pick w)) = rs !! Z.to_nat index
   /\ localStorage (after pick w) = localStorage w
   /\ console (after pick w) = console w
   /\ service_calls (after pick w) = service_calls w)
  /\ click_tab_remove index false w = (Normal tt, w)
  /\ (tab_remove_shown (this w) = true
      <-> _editMode (this w) = true /\ (1 < List.length rs)%nat)
  /\ (tab_remove_shown (this w) = true ->
        completion remove w = Normal tt
        /\ _rooms (this (after remove w)) = RoomList (delete (Z.to_nat index) rs)
        /\ has_active_room (this (after remove w))
        /\ service_calls (after remove w) = service_calls w).
Proof.
  intros Hrs Ha Hi pick remove.
  assert (Hshown : tab_remove_shown (this w) = true
                   <-> _editMode (this w) = true /\ (1 < List.length rs)%nat).
  { unfold tab_remove_shown. rewrite Hrs, andb_true_iff.
    destruct (Z.gtb_spec (Z.of_nat (List.length rs)) 1); split; intros [H1 H2];
      split; auto; try lia; discriminate. }
  split; [|split; [|split; [exact Hshown|]]].
  - destruct (click_room_tab_run w rs index Hrs Hi) as (E & Ht & Hs & Hc & Hcalls).
    cbv zeta in *. unfold completion, after at 1 2 3 4 5, pick. rewrite E. cbn [fst snd].
    rewrite Ht, Hs, Hc, Hcalls. cbn [this world_with_this].
    split; [reflexivity|]. split; [reflexivity|].
    split; [|auto]. unfold active_room_of.
    cbn [_rooms _activeRoom card_with_activeRoom]. rewrite Hrs.
    apply nth_Z_nat. lia.
  - apply (click_tab_remove_run w rs index false Hrs Hi).
  - intros Hsh. apply Hshown in Hsh as [_ Hn].
    unfold completion, after, remove.
    rewrite (click_tab_remove_run w rs index true Hrs Hi).
    destruct (removeRoom_run index w rs Hrs Hn Ha) as (Hc & Ht & _ & Hcalls & Ha').
    cbv zeta in *. unfold completion, after in *.
    split; [exact Hc|]. rewrite Ht.
    cbn [_rooms card_with_activeRoom card_with_rooms].
    split; [rewrite (splice1_delete rs index Hi); reflexivity|].
    split; [|exact Hcalls].
    eexists. split; [reflexivity|]. exact Ha'.
Qed.

Lemma room_tabs_witness :
  _rooms (this (after (click_tab_remove 1 true) five_rooms_middle_active))
  = RoomList (delete 1%nat (getDefaultRooms dist_copy))
  /\ active_room_of (this (after (click_room_tab 4) five_rooms_middle_active))
     = getDefaultRooms dist_copy !! 4%nat.
Proof.
  pose proof (room_tabs five_rooms_middle_active (getDefaultRooms dist_copy) 1
                eq_refl ltac:(cbn; lia) ltac:(cbn; lia)) as (_ & _ & _ & H1).
  pose proof (room_tabs five_rooms_middle_active (getDefaultRooms dist_copy) 4
                eq_refl ltac:(cbn; lia) ltac:(cbn; lia)) as ((_ & _ & H4 & _) & _).
  split; [apply H1; reflexivity|exact H4].
Defined.

Section Lifecycle.

Lemma render_without_hass w : _hass (this w) = None -> render w = (Normal tt, w).
Proof.
  intros H. unfold render.
  rewrite (bind_normal read_this _ w (this w) w eq_refl). rewrite H. reflexivity.
Qed.

(** Loading draws nothing. *)
Lemma saveRoomConfig_renders w : renders (after saveRoomConfig w) = renders w.
Proof.
  unfold after. destruct (saveRoomConfig_effect w) as (st & con & ->). reflexivity.
Qed.

Lemma loadRoomConfig_renders copy w :
  renders (after (loadRoomConfig copy) w) = renders w.
Proof.
  destruct w as [c st con calls n].
  unfold after, loadRoomConfig, try_catch, bind at 1, read_this. cbn.
  unfold bind at 1, localStorage_getItem, Storage.getItem. cbn.
  destruct (Storage.accessible st); cbn; [|reflexivity].
  destruct (Storage.items st !! storage_key (_config c)) as [s|]; cbn.
  - destruct (Str.truthy s); cbn.
    + unfold JSON_parse. destruct (Json.parse s); reflexivity.
    + match goal with |- context [saveRoomConfig ?w] =>
        destruct (saveRoomConfig_effect w) as (st' & con' & ->) end.
      reflexivity.
  - match goal with |- context [saveRoomConfig ?w] =>
      destruct (saveRoomConfig_effect w) as (st' & con' & ->) end.
    reflexivity.
Qed.

End Lifecycle.

(** X16: [setConfig] on a card that has no host object yet.  It
    completes and draws nothing; each option that the record lacks gets
    its default and each option that it has is kept; the rooms are read
    under the key of the new options, so that a room list stored there is
    the list of the card afterwards, with the store as it was; and no item
    of the store under another key is touched. *)
Theorem setConfig_before_hass (copy : Copy) (config : CardConfig) (w : World) :
  _hass (this w) = None ->
  let m := setConfig copy config in
  let key := default default_storage_key (config_storage_key config) in
  completion m w = Normal tt
  /\ _config (this (after m w))
     = {| location := default "Home" (config_location config);
          weather_entity := default EmptyString (config_weather_entity config);
          energy_entity := default EmptyString (config_energy_entity config);
          storage_key := key |}
  /\ _rooms (this (after m w)) <> Undefined
  /\ store_frame key (localStorage w) (localStorage (after m w))
  /\ renders (after m w) = renders w
  /\ service_calls (after m w) = service_calls w
  /\ (forall rs,
        Storage.accessible (localStorage w) = true ->
        Storage.items (localStorage w) !! key = Some (JSON_stringify (RoomList rs)) ->
        _rooms (this (after m w)) = RoomList rs
        /\ localStorage (after m w) = localStorage w).
Proof.
  intros Hh m key. subst m. unfold setConfig.
  set (cfg := {| location := _; weather_entity := _; energy_entity := _;
                 storage_key := _ |}).
  set (w0 := world_with_this w (card_with_config (this w) cfg)).
  assert (E0 : (let* c := read_this in write_this (card_with_config c cfg)) w
               = (Normal tt, w0)) by reflexivity.
  set (w1 := after (loadRoomConfig copy) w0).
  pose proof (only_edits_loadRoomConfig copy w0) as (Hh1 & Hcfg1 & Hcalls1 & Hframe).
  fold w1 in Hh1, Hcfg1, Hcalls1, Hframe.
  assert (Er : render w1 = (Normal tt, w1)).
  { apply render_without_hass. rewrite Hh1. exact Hh. }
  assert (E : after (setConfig copy config) w = w1).
  { unfold after, setConfig. fold cfg. rewrite (bind_normal _ _ _ _ _ E0).
    rewrite (bind_normal _ _ _ _ _ (loadRoomConfig_run copy w0)). fold w1.
    rewrite Er. reflexivity. }
  unfold setConfig in E. fold cfg in E. rewrite E.
  split.
  { unfold completion. rewrite (bind_normal _ _ _ _ _ E0).
    rewrite (bind_normal _ _ _ _ _ (loadRoomConfig_run copy w0)). fold w1.
    rewrite Er. reflexivity. }
  split; [exact Hcfg1|].
  split; [apply (loadRoomConfig_twice copy w0)|].
  split; [exact Hframe|].
  split.
  { pose proof (loadRoomConfig_renders copy w0) as Hr. exact Hr. }
  split; [exact Hcalls1|].
  intros rs Ha Hk.
  destruct (loadRoomConfig_present copy w0 (JSON_stringify (RoomList rs)) Ha Hk eq_refl)
    as (Ht & Hs).
  fold w1 in Ht, Hs. rewrite Ht, parse_stringify_rooms, rooms_of_json_to_json.
  split; [reflexivity|exact Hs].
Qed.

Lemma setConfig_before_hass_witness :
  _config (this (after (setConfig dist_copy
                          {| config_location := None; config_weather_entity := None;
                             config_energy_entity := None;
                             config_storage_key := Some "rooms" |})
                   (opened default_config empty_store)))
  = {| location := "Home"; weather_entity := EmptyString; energy_entity := EmptyString;
       storage_key := "rooms" |}.
Proof.
  apply (setConfig_before_hass dist_copy
           {| config_location := None; config_weather_entity := None;
              config_energy_entity := None; config_storage_key := Some "rooms" |}
           (opened default_config empty_store)).
  reflexivity.
Defined.
